(** * Cache-aside over Redis: a model of [redis_cache_example.py]

    The script wraps a Redis client in the class [RedisCache] (get / set /
    delete / exists, every one of them turning a client exception into a
    plain return value), stores values as JSON text with an expiry, and
    builds on it: the read paths [get_news_list] and [get_news_detail], the
    decorator [cache_result], the mutation handlers [create_news],
    [update_news] and [delete_news] that delete cache keys by hand, and the
    administrative [clear_cache].

    Python values are modelled by [pyval]; a Python [str] is modelled by its
    UTF-8 encoding (a Rocq [string] is a sequence of bytes), which is also
    what the Redis server stores.  Floats are outside the value domain.
    Console output ([print]) is not modelled. *)

From Stdlib Require Import ZArith Lia Ascii String List.
From Stdlib Require Import Decimal DecimalString DecimalPos DecimalFacts.
From stdpp Require Import base option list strings gmap.

#[local] Arguments String.append !_ _ / : simpl nomatch.

(** ** Python values *)

Module Py.

(** Keys of a Python [dict] as far as [json.dumps] knows them. *)
Inductive pykey : Type :=
| KStr (s : string)
| KInt (z : Z)
| KBool (b : bool)
| KNone.

(** [PObj r] is any object [json.dumps] has no encoding for (a datetime, a
    set, a database session ...); [r] is the text of its [repr].  A dict is
    kept as its items in insertion order. *)
#[local] Unset Elimination Schemes.
Inductive pyval : Type :=
| PNone
| PBool (b : bool)
| PInt (z : Z)
| PStr (s : string)
| PList (l : list pyval)
| PTuple (l : list pyval)
| PDict (d : list (pykey * pyval))
| PObj (r : string).
#[local] Set Elimination Schemes.

Inductive pyexn : Type :=
| TypeError
| JSONDecodeError
| ConnectionError
| ResponseError
| AppError (msg : string).

(** Outcome of a Python call: a value, or a raised exception. *)
Inductive result (A : Type) : Type :=
| Ok (a : A)
| Raise (e : pyexn).
Arguments Ok {A} a.
Arguments Raise {A} e.

#[global] Instance result_ret : MRet result := fun A a => Ok a.
#[global] Instance result_bind : MBind result := fun A B f m =>
  match m with
  | Ok a => f a
  | Raise e => Raise e
  end.

(** [try: body / except Exception as e: handler]. *)
Definition try_except {A : Type} (body : result A) (handler : pyexn -> A) : A :=
  match body with
  | Ok a => a
  | Raise e => handler e
  end.

(** [str(e)]: the text of an application error is its message; the text of
    a library error is the library's, its class name stands for it here. *)
Definition str_exn (e : pyexn) : string :=
  match e with
  | TypeError => "TypeError"
  | JSONDecodeError => "JSONDecodeError"
  | ConnectionError => "ConnectionError"
  | ResponseError => "ResponseError"
  | AppError msg => msg
  end.

Definition chr (n : N) : ascii := ascii_of_N n.
Definition ord (c : ascii) : N := N_of_ascii c.

Definition DQUOTE : ascii := chr 34.
Definition SQUOTE : ascii := chr 39.
Definition BACKSLASH : ascii := chr 92.

(** [bool(v)]: what [if v:] tests. *)
Definition truthy (v : pyval) : bool :=
  match v with
  | PNone => false
  | PBool b => b
  | PInt z => negb (z =? 0)%Z
  | PStr s => negb (String.eqb s "")
  | PList l => negb (Nat.eqb (List.length l) 0)
  | PTuple l => negb (Nat.eqb (List.length l) 0)
  | PDict d => negb (Nat.eqb (List.length d) 0)
  | PObj _ => true
  end.

(** [bool(s)] for the [Optional[str]] a Redis GET answers. *)
Definition truthy_reply (o : option string) : bool :=
  match o with
  | Some s => negb (String.eqb s "")
  | None => false
  end.

(** [str(z)] for an int. *)
Definition str_int (z : Z) : string :=
  match z with
  | Z0 => "0"
  | Zpos p => NilEmpty.string_of_uint (Pos.to_uint p)
  | Zneg p => String "-" (NilEmpty.string_of_uint (Pos.to_uint p))
  end.

Definition hex_digit (n : N) : ascii :=
  if (n <? 10)%N then chr (48 + n) else chr (87 + n).

Fixpoint join (sep : string) (l : list string) : string :=
  match l with
  | [] => ""
  | x :: l' =>
      match l' with
      | [] => x
      | _ :: _ => x +:+ sep +:+ join sep l'
      end
  end.

Fixpoint contains (c : ascii) (s : string) : bool :=
  match s with
  | EmptyString => false
  | String a s' => Ascii.eqb a c || contains c s'
  end.

(** [repr] of a str: single quotes unless the text has a single quote and
    no double quote; the quote and the backslash are escaped, control
    characters are written [\t], [\n], [\r] or [\xNN]. *)
Definition repr_char (q c : ascii) : string :=
  if Ascii.eqb c q || Ascii.eqb c BACKSLASH then String BACKSLASH (String c "")
  else if (ord c =? 9)%N then String BACKSLASH "t"
  else if (ord c =? 10)%N then String BACKSLASH "n"
  else if (ord c =? 13)%N then String BACKSLASH "r"
  else if (ord c <? 32)%N || (ord c =? 127)%N then
    String BACKSLASH (String "x"
      (String (hex_digit (ord c / 16)) (String (hex_digit (ord c mod 16)) "")))
  else String c "".

Fixpoint repr_chars (q : ascii) (s : string) : string :=
  match s with
  | EmptyString => ""
  | String c s' => repr_char q c +:+ repr_chars q s'
  end.

Definition repr_str (s : string) : string :=
  let q := if contains SQUOTE s && negb (contains DQUOTE s) then DQUOTE else SQUOTE in
  String q (repr_chars q s +:+ String q "").

Definition repr_key (k : pykey) : string :=
  match k with
  | KStr s => repr_str s
  | KInt z => str_int z
  | KBool b => if b then "True" else "False"
  | KNone => "None"
  end.

(** [repr(v)], which is also what an f-string writes for a tuple or a dict. *)
Fixpoint repr (v : pyval) : string :=
  match v with
  | PNone => "None"
  | PBool b => if b then "True" else "False"
  | PInt z => str_int z
  | PStr s => repr_str s
  | PList l => "[" +:+ join ", " (map repr l) +:+ "]"
  | PTuple l =>
      match l with
      | [x] => "(" +:+ repr x +:+ ",)"
      | _ => "(" +:+ join ", " (map repr l) +:+ ")"
      end
  | PDict d =>
      "{" +:+ join ", " (map (fun kv => repr_key (fst kv) +:+ ": " +:+ repr (snd kv)) d) +:+ "}"
  | PObj r => r
  end.






End Py.
Export Py.

(** ** The JSON codec: [json.dumps(v, ensure_ascii=False)] and [json.loads]

    The codec of Python's standard library, as the class calls it: the
    encoder with its default separators, the decoder in strict mode.  Not
    represented: floats (a float literal, [NaN] and [Infinity] read as an
    error here), a surrogate escape that is not half of a pair, and the
    interpreter's limits on nesting depth and on the digits of an int. *)

Module Json.

(** What [json.dumps] accepts: every dict key is a str, an int, a bool or
    None (so every [pykey]), and no value is a [PObj]. *)
Fixpoint serializable (v : pyval) : bool :=
  match v with
  | PNone | PBool _ | PInt _ | PStr _ => true
  | PList l => forallb serializable l
  | PTuple l => forallb serializable l
  | PDict d => forallb (fun kv => serializable (snd kv)) d
  | PObj _ => false
  end.

(** The encoder's escape table with [ensure_ascii=False]: the quote, the
    backslash, and the control characters below 0x20. *)
Definition esc_char (c : ascii) : string :=
  if Ascii.eqb c DQUOTE then String BACKSLASH (String DQUOTE "")
  else if Ascii.eqb c BACKSLASH then String BACKSLASH (String BACKSLASH "")
  else if (ord c =? 8)%N then String BACKSLASH "b"
  else if (ord c =? 12)%N then String BACKSLASH "f"
  else if (ord c =? 10)%N then String BACKSLASH "n"
  else if (ord c =? 13)%N then String BACKSLASH "r"
  else if (ord c =? 9)%N then String BACKSLASH "t"
  else if (ord c <? 32)%N then
    String BACKSLASH (String "u" (String "0" (String "0"
      (String (hex_digit (ord c / 16)) (String (hex_digit (ord c mod 16)) "")))))
  else String c "".

Fixpoint esc_chars (s : string) : string :=
  match s with
  | EmptyString => ""
  | String c s' => esc_char c +:+ esc_chars s'
  end.

Definition encode_str (s : string) : string :=
  String DQUOTE (esc_chars s +:+ String DQUOTE "").

(** A dict key is written as a JSON string: a str as it is, the others by
    their JSON spelling. *)
Definition key_text (k : pykey) : string :=
  match k with
  | KStr s => s
  | KInt z => str_int z
  | KBool b => if b then "true" else "false"
  | KNone => "null"
  end.

(** The text written for a serializable value, with the default separators
    [", "] and [": "]; a tuple is written as an array. *)
Fixpoint encode (v : pyval) : string :=
  match v with
  | PNone => "null"
  | PBool b => if b then "true" else "false"
  | PInt z => str_int z
  | PStr s => encode_str s
  | PList l => "[" +:+ join ", " (map encode l) +:+ "]"
  | PTuple l => "[" +:+ join ", " (map encode l) +:+ "]"
  | PDict d =>
      "{" +:+ join ", "
        (map (fun kv => encode_str (key_text (fst kv)) +:+ ": " +:+ encode (snd kv)) d)
      +:+ "}"
  | PObj _ => ""
  end.

Definition dumps (v : pyval) : result string :=
  if serializable v then Ok (encode v) else Raise TypeError.

(** *** Decoding *)

Definition is_ws (c : ascii) : bool :=
  (ord c =? 32)%N || (ord c =? 9)%N || (ord c =? 10)%N || (ord c =? 13)%N.

Fixpoint skip_ws (s : string) : string :=
  match s with
  | EmptyString => ""
  | String c s' => if is_ws c then skip_ws s' else s
  end.

Definition is_digit (c : ascii) : bool :=
  (48 <=? ord c)%N && (ord c <=? 57)%N.

Definition hex_val (c : ascii) : option N :=
  let n := ord c in
  if (48 <=? n)%N && (n <=? 57)%N then Some (n - 48)%N
  else if (97 <=? n)%N && (n <=? 102)%N then Some (n - 87)%N
  else if (65 <=? n)%N && (n <=? 70)%N then Some (n - 55)%N
  else None.

(** UTF-8 bytes of a code point. *)
Definition utf8 (cp : N) : string :=
  if (cp <? 128)%N then String (chr cp) ""
  else if (cp <? 2048)%N then
    String (chr (192 + cp / 64)) (String (chr (128 + cp mod 64)) "")
  else if (cp <? 65536)%N then
    String (chr (224 + cp / 4096))
      (String (chr (128 + (cp / 64) mod 64)) (String (chr (128 + cp mod 64)) ""))
  else
    String (chr (240 + cp / 262144))
      (String (chr (128 + (cp / 4096) mod 64))
        (String (chr (128 + (cp / 64) mod 64)) (String (chr (128 + cp mod 64)) ""))).

Definition is_high_surrogate (n : N) : bool := (55296 <=? n)%N && (n <=? 56319)%N.
Definition is_low_surrogate (n : N) : bool := (56320 <=? n)%N && (n <=? 57343)%N.

(** Where the string scanner stands: in plain text, after a backslash,
    inside the four hex digits of [\uXXXX] ([togo] digits to go, [acc]
    read so far, [hi] a pending high surrogate), or just after a high
    surrogate, where only the escape of a low surrogate may follow. *)
Inductive scan_state : Type :=
| SText
| SEsc
| SHex (togo : nat) (acc : N) (hi : option N)
| SHigh (hi : N)
| SHighEsc (hi : N).

Definition prepend (t : string) (r : option (string * string)) : option (string * string) :=
  match r with
  | Some (s, rest) => Some (t +:+ s, rest)
  | None => None
  end.

(** [scanstring] in strict mode, after the opening quote: the decoded text
    and what follows the closing quote.  A raw control character, an unknown
    escape or an unterminated string is an error; so is, here, a surrogate
    that is not half of a pair (a str the UTF-8 model cannot hold). *)
Fixpoint scanstring (st : scan_state) (s : string) : option (string * string) :=
  match s with
  | EmptyString => None
  | String c s' =>
      match st with
      | SText =>
          if Ascii.eqb c DQUOTE then Some ("", s')
          else if Ascii.eqb c BACKSLASH then scanstring SEsc s'
          else if (ord c <? 32)%N then None
          else prepend (String c "") (scanstring SText s')
      | SEsc =>
          if Ascii.eqb c DQUOTE then prepend (String DQUOTE "") (scanstring SText s')
          else if Ascii.eqb c BACKSLASH then prepend (String BACKSLASH "") (scanstring SText s')
          else if Ascii.eqb c "/" then prepend "/" (scanstring SText s')
          else if Ascii.eqb c "b" then prepend (String (chr 8) "") (scanstring SText s')
          else if Ascii.eqb c "f" then prepend (String (chr 12) "") (scanstring SText s')
          else if Ascii.eqb c "n" then prepend (String (chr 10) "") (scanstring SText s')
          else if Ascii.eqb c "r" then prepend (String (chr 13) "") (scanstring SText s')
          else if Ascii.eqb c "t" then prepend (String (chr 9) "") (scanstring SText s')
          else if Ascii.eqb c "u" then scanstring (SHex 4 0 None) s'
          else None
      | SHex togo acc hi =>
          match hex_val c with
          | None => None
          | Some h =>
              let acc' := (16 * acc + h)%N in
              match togo with
              | S (S k) => scanstring (SHex (S k) acc' hi) s'
              | _ =>
                  match hi with
                  | None =>
                      if is_high_surrogate acc' then scanstring (SHigh acc') s'
                      else if is_low_surrogate acc' then None
                      else prepend (utf8 acc') (scanstring SText s')
                  | Some h1 =>
                      if is_low_surrogate acc' then
                        prepend (utf8 (65536 + (h1 - 55296) * 1024 + (acc' - 56320))%N)
                                (scanstring SText s')
                      else None
                  end
              end
          end
      | SHigh hi => if Ascii.eqb c BACKSLASH then scanstring (SHighEsc hi) s' else None
      | SHighEsc hi => if Ascii.eqb c "u" then scanstring (SHex 4 0 (Some hi)) s' else None
      end
  end.

(** The longest run of decimal digits at the head of the text. *)
Fixpoint scan_digits (s : string) : uint * string :=
  match s with
  | EmptyString => (Nil, "")
  | String c s' =>
      match uint_of_char c (Some Nil) with
      | None => (Nil, s)
      | Some _ =>
          let (d, rest) := scan_digits s' in
          (match uint_of_char c (Some d) with Some d' => d' | None => Nil end, rest)
      end
  end.

(** Does a fraction or an exponent follow the integer part?  Then the
    literal is a float, which this model has no value for. *)
Definition float_tail (s : string) : bool :=
  match s with
  | String c (String c1 s1) =>
      if Ascii.eqb c "." then is_digit c1
      else if Ascii.eqb c "e" || Ascii.eqb c "E" then
        is_digit c1 ||
        ((Ascii.eqb c1 "+" || Ascii.eqb c1 "-") &&
         match s1 with String c2 _ => is_digit c2 | EmptyString => false end)
      else false
  | _ => false
  end.

(** The integer part of [NUMBER_RE]: an optional minus sign, then a single
    zero or a digit run that does not start with zero. *)
Definition scan_int (s : string) : option (Z * string) :=
  let (neg, s1) :=
    match s with
    | String "-" r => (true, r)
    | _ => (false, s)
    end in
  match s1 with
  | EmptyString => None
  | String c r =>
      if negb (is_digit c) then None
      else
        let (d, rest) := if Ascii.eqb c "0" then (D0 Nil, r) else scan_digits s1 in
        if float_tail rest then None
        else Some (if neg then (- Z.of_uint d)%Z else Z.of_uint d, rest)
  end.

Fixpoint strip_prefix (p s : string) : option string :=
  match p with
  | EmptyString => Some s
  | String a p' =>
      match s with
      | String b s' => if Ascii.eqb a b then strip_prefix p' s' else None
      | EmptyString => None
      end
  end.

(** [dict(pairs)]: a repeated key keeps its first position and takes the
    last value. *)
Fixpoint dict_set (d : list (pykey * pyval)) (k : string) (v : pyval) : list (pykey * pyval) :=
  match d with
  | [] => [(KStr k, v)]
  | (k', v') :: d' =>
      match k' with
      | KStr s => if String.eqb s k then (k', v) :: d' else (k', v') :: dict_set d' k v
      | _ => (k', v') :: dict_set d' k v
      end
  end.

Definition dict_of_pairs (l : list (string * pyval)) : list (pykey * pyval) :=
  fold_left (fun d kv => dict_set d (fst kv) (snd kv)) l [].

(** The recursive-descent scanner ([scan_once], [JSONArray], [JSONObject]).
    [fuel] bounds the nesting of calls; [loads] gives it twice the length
    of the text, two nested calls never going without reading a character.
    [parse_elems] reads the elements of an
    array up to its closing bracket, [parse_members] the members of an
    object from the opening quote of a key up to the closing brace. *)
Fixpoint parse_value (fuel : nat) (s : string) : option (pyval * string) :=
  match fuel with
  | O => None
  | S f =>
      match s with
      | EmptyString => None
      | String c s' =>
          if Ascii.eqb c DQUOTE then
            match scanstring SText s' with
            | Some (t, rest) => Some (PStr t, rest)
            | None => None
            end
          else if Ascii.eqb c "{" then
            match skip_ws s' with
            | String c1 r1 =>
                if Ascii.eqb c1 "}" then Some (PDict [], r1)
                else if Ascii.eqb c1 DQUOTE then
                  match parse_members f r1 with
                  | Some (ps, rest) => Some (PDict (dict_of_pairs ps), rest)
                  | None => None
                  end
                else None
            | EmptyString => None
            end
          else if Ascii.eqb c "[" then
            match skip_ws s' with
            | String c1 r1 =>
                if Ascii.eqb c1 "]" then Some (PList [], r1)
                else
                  match parse_elems f (String c1 r1) with
                  | Some (vs, rest) => Some (PList vs, rest)
                  | None => None
                  end
            | EmptyString => None
            end
          else if Ascii.eqb c "n" then
            match strip_prefix "ull" s' with
            | Some rest => Some (PNone, rest)
            | None => None
            end
          else if Ascii.eqb c "t" then
            match strip_prefix "rue" s' with
            | Some rest => Some (PBool true, rest)
            | None => None
            end
          else if Ascii.eqb c "f" then
            match strip_prefix "alse" s' with
            | Some rest => Some (PBool false, rest)
            | None => None
            end
          else
            match scan_int s with
            | Some (z, rest) => Some (PInt z, rest)
            | None => None
            end
      end
  end
with parse_elems (fuel : nat) (s : string) : option (list pyval * string) :=
  match fuel with
  | O => None
  | S f =>
      match parse_value f s with
      | None => None
      | Some (v, r) =>
          match skip_ws r with
          | String c r1 =>
              if Ascii.eqb c "]" then Some ([v], r1)
              else if Ascii.eqb c "," then
                match parse_elems f (skip_ws r1) with
                | Some (vs, rest) => Some (v :: vs, rest)
                | None => None
                end
              else None
          | EmptyString => None
          end
      end
  end
with parse_members (fuel : nat) (s : string) : option (list (string * pyval) * string) :=
  match fuel with
  | O => None
  | S f =>
      match scanstring SText s with
      | None => None
      | Some (k, r) =>
          match skip_ws r with
          | String c r1 =>
              if negb (Ascii.eqb c ":") then None
              else
                match parse_value f (skip_ws r1) with
                | None => None
                | Some (v, r2) =>
                    match skip_ws r2 with
                    | String c2 r3 =>
                        if Ascii.eqb c2 "}" then Some ([(k, v)], r3)
                        else if Ascii.eqb c2 "," then
                          match skip_ws r3 with
                          | String c3 r4 =>
                              if Ascii.eqb c3 DQUOTE then
                                match parse_members f r4 with
                                | Some (ps, rest) => Some ((k, v) :: ps, rest)
                                | None => None
                                end
                              else None
                          | EmptyString => None
                          end
                        else None
                    | EmptyString => None
                    end
                end
          | EmptyString => None
          end
      end
  end.

(** [json.loads]: leading white space, one value, trailing white space,
    then the end of the text; anything else raises. *)
Definition loads (s : string) : result pyval :=
  match parse_value (S (2 * String.length s)) (skip_ws s) with
  | Some (v, rest) =>
      match skip_ws rest with
      | EmptyString => Ok v
      | String _ _ => Raise JSONDecodeError
      end
  | None => Raise JSONDecodeError
  end.

End Json.

(** ** The Redis server behind the client

    One logical database: every key holds a string and, possibly, the time
    (in milliseconds on the server's clock) at which it expires.  An expired
    entry is invisible to every command.  The client raises
    [ConnectionError] on every command while the server is unreachable. *)

Module Redis.

Record entry : Type := Entry { value : string; expire_at : option Z }.

Record server : Type := Server {
  connected : bool;
  clock : Z;
  data : gmap string entry
}.

Definition live (now : Z) (e : entry) : bool :=
  match expire_at e with
  | Some t => (now <=? t)%Z
  | None => true
  end.

(** The entry a command sees under a key. *)
Definition lookup (r : server) (k : string) : option entry :=
  match data r !! k with
  | Some e => if live (clock r) e then Some e else None
  | None => None
  end.

(** Time passing on the server's clock, [ms] milliseconds of it. *)
Definition tick (ms : Z) (r : server) : server :=
  Server (connected r) (clock r + ms) (data r).

(** *** Glob patterns of KEYS *)

Inductive tok : Type :=
| TStar
| TAny
| TLit (c : ascii)
| TClass (neg : bool) (ranges : list (ascii * ascii)).

Inductive tok_mode : Type :=
| MTop
| MClass (neg : bool) (ranges : list (ascii * ascii)).

Definition mk_range (a b : ascii) : ascii * ascii :=
  if (ord b <? ord a)%N then (b, a) else (a, b).

(** The pattern read left to right: [*], [?], a class [[...]] (negated by a
    leading [^], with ranges [a-b], closed by the end of the pattern when
    the bracket is missing), a backslash making the next character
    literal. *)
Fixpoint tokens (m : tok_mode) (p : string) : list tok :=
  match m, p with
  | MTop, EmptyString => []
  | MTop, String c p' =>
      if Ascii.eqb c "*" then TStar :: tokens MTop p'
      else if Ascii.eqb c "?" then TAny :: tokens MTop p'
      else if Ascii.eqb c "[" then
        match p' with
        | String "^" p'' => tokens (MClass true []) p''
        | _ => tokens (MClass false []) p'
        end
      else if Ascii.eqb c BACKSLASH then
        match p' with
        | String c2 p'' => TLit c2 :: tokens MTop p''
        | EmptyString => [TLit c]
        end
      else TLit c :: tokens MTop p'
  | MClass neg rs, EmptyString => [TClass neg rs]
  | MClass neg rs, String c p' =>
      if Ascii.eqb c BACKSLASH then
        match p' with
        | String c2 p'' => tokens (MClass neg ((c2, c2) :: rs)) p''
        | EmptyString => [TClass neg ((c, c) :: rs)]
        end
      else if Ascii.eqb c "]" then TClass neg rs :: tokens MTop p'
      else
        match p' with
        | String "-" (String c2 p'') => tokens (MClass neg (mk_range c c2 :: rs)) p''
        | _ => tokens (MClass neg ((c, c) :: rs)) p'
        end
  end.

Definition in_class (rs : list (ascii * ascii)) (c : ascii) : bool :=
  existsb (fun ab => (ord (fst ab) <=? ord c)%N && (ord c <=? ord (snd ab))%N) rs.

Fixpoint match_tokens (ts : list tok) (s : string) : bool :=
  match ts with
  | [] => String.eqb s ""
  | TStar :: ts' =>
      (fix star (s : string) : bool :=
         match_tokens ts' s ||
         match s with
         | String _ s' => star s'
         | EmptyString => false
         end) s
  | TAny :: ts' =>
      match s with
      | String _ s' => match_tokens ts' s'
      | EmptyString => false
      end
  | TLit c :: ts' =>
      match s with
      | String a s' => Ascii.eqb a c && match_tokens ts' s'
      | EmptyString => false
      end
  | TClass neg rs :: ts' =>
      match s with
      | String a s' => xorb neg (in_class rs a) && match_tokens ts' s'
      | EmptyString => false
      end
  end.

Definition glob_match (pattern key : string) : bool :=
  match_tokens (tokens MTop pattern) key.

(** *** Commands, as the client's methods answer them *)

Definition GET (k : string) (r : server) : result (option string) :=
  if connected r then Ok (value <$> lookup r k) else Raise ConnectionError.

(** SETEX refuses an expiry that is not positive. *)
Definition SETEX (k : string) (seconds : Z) (v : string) (r : server) : result (bool * server) :=
  if negb (connected r) then Raise ConnectionError
  else if (seconds <=? 0)%Z then Raise ResponseError
  else Ok (true, Server (connected r) (clock r)
                   (<[k := Entry v (Some (clock r + 1000 * seconds)%Z)]> (data r))).

(** The keys of [ks] that a DEL removes, counted once each. *)
Fixpoint count_live (r : server) (ks : list string) : Z :=
  match ks with
  | [] => 0
  | k :: ks' =>
      ((if bool_decide (is_Some (lookup r k)) && negb (bool_decide (k ∈ ks')) then 1 else 0)
       + count_live r ks')%Z
  end.

Definition DEL (ks : list string) (r : server) : result (Z * server) :=
  if negb (connected r) then Raise ConnectionError
  else
    match ks with
    | [] => Raise ResponseError
    | _ => Ok (count_live r ks,
               Server (connected r) (clock r) (foldr (fun k m => base.delete k m) (data r) ks))
    end.

Definition EXISTS (k : string) (r : server) : result Z :=
  if connected r then
    Ok (match lookup r k with
        | Some _ => 1%Z
        | None => 0%Z
        end)
  else Raise ConnectionError.

(** The keys KEYS lists: the visible ones that match the pattern. *)
Definition matching (pattern : string) (r : server) : list string :=
  List.filter (fun k => bool_decide (is_Some (lookup r k)) && glob_match pattern k)
    (map fst (map_to_list (data r))).

Definition KEYS (pattern : string) (r : server) : result (list string) :=
  if connected r then Ok (matching pattern r) else Raise ConnectionError.

Definition FLUSHDB (r : server) : result (bool * server) :=
  if connected r then Ok (true, Server (connected r) (clock r) ∅)
  else Raise ConnectionError.

End Redis.

(** ** [class RedisCache], on the module-level instance [redis_cache] *)

Module RedisCache.

(** Each method is a [try] block and an [except Exception] that answers a
    plain value; the blocks are named here so that what they raise can be
    talked about. *)

Definition get_body (key : string) (r : Redis.server) : result pyval :=
  value ← Redis.GET key r;
  if truthy_reply value then Json.loads (default "" value)
  else Ok PNone.

Definition get (key : string) (r : Redis.server) : pyval :=
  try_except (get_body key r) (fun e => PNone).

Definition set_body (key : string) (value : pyval) (timeout : Z) (r : Redis.server)
    : result (bool * Redis.server) :=
  value_str ← Json.dumps value;
  '(_, r') ← Redis.SETEX key timeout value_str r;
  Ok (true, r').

Definition set (key : string) (value : pyval) (timeout : Z) (r : Redis.server)
    : bool * Redis.server :=
  try_except (set_body key value timeout r) (fun e => (false, r)).

Definition delete_body (key : string) (r : Redis.server) : result (bool * Redis.server) :=
  '(_, r') ← Redis.DEL [key] r;
  Ok (true, r').

Definition delete (key : string) (r : Redis.server) : bool * Redis.server :=
  try_except (delete_body key r) (fun e => (false, r)).

Definition exists_body (key : string) (r : Redis.server) : result bool :=
  n ← Redis.EXISTS key r;
  Ok (0 <? n)%Z.

Definition exists_ (key : string) (r : Redis.server) : bool :=
  try_except (exists_body key r) (fun e => false).

End RedisCache.

(** ** The decorator [cache_result] *)

(** A Python function as the decorator sees it: its [__name__], and its
    body, which acts on its own environment [U] (the database behind a
    query, a counter ...) and returns or raises. *)
Record pyfunc (U : Type) : Type := PyFunc {
  func_name : string;
  func_call : list pyval -> list (string * pyval) -> U -> result pyval * U
}.
Arguments PyFunc {U} _ _.
Arguments func_name {U} _.
Arguments func_call {U} _ _ _ _.

(** What a call of the decorated function acts on: the Redis server, the
    environment of the wrapped function, and [calls], a counter of the
    invocations of the wrapped function, kept for the proofs only. *)
Record world (U : Type) : Type := World {
  cache : Redis.server;
  env : U;
  calls : nat
}.
Arguments World {U} _ _ _.
Arguments cache {U} _.
Arguments env {U} _.
Arguments calls {U} _.

Definition kwargs_dict (kwargs : list (string * pyval)) : pyval :=
  PDict (map (fun kv => (KStr (fst kv), snd kv)) kwargs).

(** [f"{key_prefix}:{func.__name__}:{args}:{kwargs}"] *)
Definition wrapper_key {U : Type} (key_prefix : string) (func : pyfunc U)
    (args : list pyval) (kwargs : list (string * pyval)) : string :=
  key_prefix +:+ ":" +:+ func_name func +:+ ":" +:+ repr (PTuple args)
  +:+ ":" +:+ repr (kwargs_dict kwargs).

Definition wrapper {U : Type} (timeout : Z) (key_prefix : string) (func : pyfunc U)
    (args : list pyval) (kwargs : list (string * pyval)) (w : world U)
    : result pyval * world U :=
  let cache_key := wrapper_key key_prefix func args kwargs in
  let cached_result := RedisCache.get cache_key (cache w) in
  if truthy cached_result then (Ok cached_result, w)
  else
    let (outcome, env') := func_call func args kwargs (env w) in
    match outcome with
    | Raise e => (Raise e, World (cache w) env' (S (calls w)))
    | Ok result =>
        let (_, cache') := RedisCache.set cache_key result timeout (cache w) in
        (Ok result, World cache' env' (S (calls w)))
    end.

(** [cache_result(timeout, key_prefix)(func)]; [functools.wraps] keeps the
    name. *)
Definition cache_result {U : Type} (timeout : Z) (key_prefix : string) (func : pyfunc U)
    : pyfunc (world U) :=
  PyFunc (func_name func) (wrapper timeout key_prefix func).



(** ** The news routes *)

Module NewsApi.

(** Modelled from the spec: the ORM class [News] ([models/news.py]) is not
    among the sources.  A row has the columns the routes read;
    [publish_time] holds the text [isoformat()] gives, when the column is
    set. *)
Record News : Type := MkNews {
  id : Z;
  title : string;
  content : string;
  category_id : Z;
  author : string;
  publish_time : option string
}.


(** Modelled from the spec: see [NewsCreate]. *)
Record NewsUpdate : Type := MkNewsUpdate {
  u_title : option string;
  u_content : option string;
  u_category_id : option Z;
  u_author : option string;
  u_publish_time : option (option string)
}.

Record app : Type := App {
  redis_cache : Redis.server;
  db : list News
}.

Definition list_cache_key (category_id page page_size : Z) : string :=
  "news:list:category_" +:+ str_int category_id +:+ ":page_" +:+ str_int page
  +:+ ":size_" +:+ str_int page_size.

Definition detail_cache_key (id : Z) : string :=
  "news:detail:" +:+ str_int id.

Definition opt_str (o : option string) : pyval :=
  match o with
  | Some s => PStr s
  | None => PNone
  end.

Definition list_item (news : News) : pyval :=
  PDict [(KStr "id", PInt (id news));
         (KStr "title", PStr (title news));
         (KStr "content", PStr (content news));
         (KStr "category_id", PInt (category_id news));
         (KStr "publish_time", opt_str (publish_time news))].

(** The query of the list route; a negative offset or limit, which is the
    database's to judge, reads as zero. *)
Definition query_page (category : Z) (offset limit : Z) (rows : list News) : list News :=
  firstn (Z.to_nat limit)
    (skipn (Z.to_nat offset)
       (List.filter (fun news => (category_id news =? category)%Z) rows)).

Definition get_news_list (category_id page page_size : Z) (a : app) : pyval * app :=
  let cache_key := list_cache_key category_id page page_size in
  let cached_data := RedisCache.get cache_key (redis_cache a) in
  if truthy cached_data then
    (PDict [(KStr "code", PInt 200); (KStr "data", cached_data);
            (KStr "from_cache", PBool true)], a)
  else
    let offset := ((page - 1) * page_size)%Z in
    let news_list := query_page category_id offset page_size (db a) in
    let news_data := map list_item news_list in
    let result_data :=
      PDict [(KStr "list", PList news_data);
             (KStr "total", PInt (Z.of_nat (List.length news_data)))] in
    let (_, r') := RedisCache.set cache_key result_data 300 (redis_cache a) in
    (PDict [(KStr "code", PInt 200); (KStr "data", result_data);
            (KStr "from_cache", PBool false)], App r' (db a)).

Definition detail_item (news : News) : pyval :=
  PDict [(KStr "id", PInt (id news));
         (KStr "title", PStr (title news));
         (KStr "content", PStr (content news));
         (KStr "category_id", PInt (category_id news));
         (KStr "author", PStr (author news));
         (KStr "publish_time", opt_str (publish_time news))].

Definition not_found : pyval :=
  PDict [(KStr "code", PInt 404); (KStr "message", PStr "新闻不存在")].

Definition get_news_detail (id0 : Z) (a : app) : pyval * app :=
  let cache_key := detail_cache_key id0 in
  let cached_news := RedisCache.get cache_key (redis_cache a) in
  if truthy cached_news then
    (PDict [(KStr "code", PInt 200); (KStr "data", cached_news);
            (KStr "from_cache", PBool true)], a)
  else
    match List.find (fun news => (id news =? id0)%Z) (db a) with
    | None => (not_found, a)
    | Some news =>
        let news_data := detail_item news in
        let (_, r') := RedisCache.set cache_key news_data 3600 (redis_cache a) in
        (PDict [(KStr "code", PInt 200); (KStr "data", news_data);
                (KStr "from_cache", PBool false)], App r' (db a))
    end.

(** [for page in range(1, 6): redis_cache.delete(f"news:list:category_{c}:page_{page}:size_10")] *)
Definition clear_list_pages (category : Z) (r : Redis.server) : Redis.server :=
  fold_left (fun r page => snd (RedisCache.delete (list_cache_key category page 10) r))
    [1; 2; 3; 4; 5]%Z r.



Definition apply_update (news_data : NewsUpdate) (news : News) : News :=
  MkNews (id news)
    (default (title news) (u_title news_data))
    (default (content news) (u_content news_data))
    (default (category_id news) (u_category_id news_data))
    (default (author news) (u_author news_data))
    (default (publish_time news) (u_publish_time news_data)).

(** The row the query's [first()] found is the one the commit rewrites. *)
Fixpoint replace_first (id0 : Z) (news' : News) (rows : list News) : list News :=
  match rows with
  | [] => []
  | news :: rows' =>
      if (id news =? id0)%Z then news' :: rows' else news :: replace_first id0 news' rows'
  end.

Definition update_news (id0 : Z) (news_data : NewsUpdate) (a : app) : pyval * app :=
  match List.find (fun news => (id news =? id0)%Z) (db a) with
  | None => (not_found, a)
  | Some news =>
      let old_category_id := category_id news in
      let news' := apply_update news_data news in
      let db' := replace_first id0 news' (db a) in
      let r1 := snd (RedisCache.delete (detail_cache_key id0) (redis_cache a)) in
      let r2 := clear_list_pages old_category_id r1 in
      let r3 :=
        if negb (category_id news' =? old_category_id)%Z
        then clear_list_pages (category_id news') r2
        else r2 in
      (PDict [(KStr "code", PInt 200); (KStr "message", PStr "更新成功")], App r3 db')
  end.

Fixpoint remove_first (id0 : Z) (rows : list News) : list News :=
  match rows with
  | [] => []
  | news :: rows' =>
      if (id news =? id0)%Z then rows' else news :: remove_first id0 rows'
  end.

Definition delete_news (id0 : Z) (a : app) : pyval * app :=
  match List.find (fun news => (id news =? id0)%Z) (db a) with
  | None => (not_found, a)
  | Some news =>
      let category_id := category_id news in
      let db' := remove_first id0 (db a) in
      let r1 := snd (RedisCache.delete (detail_cache_key id0) (redis_cache a)) in
      let r2 := clear_list_pages category_id r1 in
      (PDict [(KStr "code", PInt 200); (KStr "message", PStr "删除成功")], App r2 db')
  end.


End NewsApi.

(** ** The administrative route [clear_cache] *)

Definition cleared_all : pyval :=
  PDict [(KStr "code", PInt 200); (KStr "message", PStr "已清除所有缓存")].

Definition cleared_some (n : nat) (pattern : string) : pyval :=
  PDict [(KStr "code", PInt 200);
         (KStr "message", PStr ("已清除 " +:+ str_int (Z.of_nat n) +:+ " 个缓存"));
         (KStr "pattern", PStr pattern)].

Definition cleared_none : pyval :=
  PDict [(KStr "code", PInt 200); (KStr "message", PStr "没有匹配的缓存")].

Definition clear_failed (e : pyexn) : pyval :=
  PDict [(KStr "code", PInt 500); (KStr "message", PStr ("清除缓存失败: " +:+ str_exn e))].

Definition clear_cache (pattern : string) (r : Redis.server) : pyval * Redis.server :=
  try_except
    (if String.eqb pattern "*" then
       '(_, r') ← Redis.FLUSHDB r;
       Ok (cleared_all, r')
     else
       keys ← Redis.KEYS pattern r;
       match keys with
       | _ :: _ =>
           '(_, r') ← Redis.DEL keys r;
           Ok (cleared_some (List.length keys) pattern, r')
       | [] => Ok (cleared_none, r)
       end)
    (fun e => (clear_failed e, r)).

(** ** Notions the statements use *)

Definition is_kstr (k : pykey) : bool :=
  match k with
  | KStr _ => true
  | _ => false
  end.

(** The values JSON represents as they are: None, bools, ints, strs, lists
    of such values and dicts of such values under str keys; no tuple, no key
    that is not a str, no opaque object.  (The items of a Python dict have
    distinct keys.) *)
Fixpoint json_native (v : pyval) : bool :=
  match v with
  | PNone | PBool _ | PInt _ | PStr _ => true
  | PList l => forallb json_native l
  | PTuple _ => false
  | PDict d =>
      forallb (fun kv => is_kstr (fst kv) && json_native (snd kv)) d
      && bool_decide (NoDup (map (fun kv => Json.key_text (fst kv)) d))
  | PObj _ => false
  end.

(** The server after a successful SETEX of the text of [v] under [key]. *)
Definition stored (key : string) (v : pyval) (timeout : Z) (r : Redis.server) : Redis.server :=
  Redis.Server (Redis.connected r) (Redis.clock r)
    (<[key := Redis.Entry (Json.encode v) (Some (Redis.clock r + 1000 * timeout)%Z)]>
       (Redis.data r)).




(** Nothing is stored under the key, as far as the server can be asked. *)
Definition key_gone (k : string) (r : Redis.server) : Prop :=
  Redis.connected r = true -> Redis.data r !! k = None.

(** *** Auxiliary notions of the decoding proof *)

(** Fuel that lets the scanner read the text of [v] back. *)
Fixpoint need (v : pyval) : nat :=
  match v with
  | PList l => S (sum_list (map (fun x => S (need x)) l))
  | PTuple l => S (sum_list (map (fun x => S (need x)) l))
  | PDict d => S (sum_list (map (fun kv => S (need (snd kv))) d))
  | _ => 1
  end.

(** What may follow a value inside a text: nothing, a comma, a closing
    bracket or brace. *)
Definition at_delim (s : string) : bool :=
  match s with
  | EmptyString => true
  | String c _ => Ascii.eqb c "," || Ascii.eqb c "]" || Ascii.eqb c "}"
  end.

(** The first character of an encoded value starts a value: it is no white
    space and no closing bracket or brace. *)
Definition starts_value (s : string) : Prop :=
  match s with
  | EmptyString => False
  | String c _ =>
      Json.is_ws c = false /\ Ascii.eqb c "]" = false /\ Ascii.eqb c "}" = false
  end.

(** [parses v]: the scanner reads back the text of [v], whatever follows
    it, given fuel for the nesting of [v]. *)
Definition parses (v : pyval) : Prop :=
  forall fuel rest, (need v <= fuel)%nat -> at_delim rest = true ->
    Json.parse_value fuel (Json.encode v +:+ rest) = Some (v, rest).

Definition member (kv : pykey * pyval) : string :=
  Json.encode_str (Json.key_text (fst kv)) +:+ ": " +:+ Json.encode (snd kv).

Definition pair_of (kv : pykey * pyval) : string * pyval :=
  (Json.key_text (fst kv), snd kv).

(** *** Sample data *)

(** A query that counts its runs in its environment and returns [v]. *)
Definition counting (v : pyval) : pyfunc nat :=
  PyFunc "get_categories" (fun _ _ n => (Ok v, S n)).

(** A query that fails. *)
Definition failing (msg : string) : pyfunc nat :=
  PyFunc "get_categories" (fun _ _ n => (Raise (AppError msg), S n)).

Definition fresh_world : world nat := World (Redis.Server true 0 ∅) 0 0.

Definition categories : pyval :=
  PDict [(KStr "code", PInt 200);
         (KStr "data", PList [PDict [(KStr "id", PInt 1); (KStr "name", PStr "sports")]])].

Definition sample_row : NewsApi.News := NewsApi.MkNews 1 "title" "text" 1 "ann" None.


Definition sample_app : NewsApi.app := NewsApi.App (Redis.Server true 0 ∅) [sample_row].


(** A dict with an int key and a tuple inside; a dict with a tuple inside;
    a dict with a datetime inside. *)
Definition int_keyed : pyval :=
  PDict [(KInt 1, PStr "sports"); (KStr "ids", PTuple [PInt 4; PInt 2])].


Definition with_datetime : pyval :=
  PDict [(KStr "at", PObj "datetime.datetime(2024, 1, 1, 0, 0)")].

Definition sample_store : Redis.server :=
  Redis.Server true 0
    (<[ "news:list:category_3:page_1:size_10" := Redis.Entry "{}" None ]>
     (<[ "news:list:category_3:page_2:size_10" := Redis.Entry "{}" (Some 10%Z) ]>
      (<[ "news:list:category_31:page_1:size_10" := Redis.Entry "{}" None ]>
       (<[ "news:detail:3" := Redis.Entry "{}" None ]> ∅)))).

(** *** Further notions *)



(** The body of a 200 reply of the read routes. *)
Definition reply (data : pyval) (from_cache : bool) : pyval :=
  PDict [(KStr "code", PInt 200); (KStr "data", data); (KStr "from_cache", PBool from_cache)].

(** What the list route computes from the table on a miss. *)
Definition list_page_data (category page page_size : Z) (rows : list NewsApi.News) : pyval :=
  PDict [(KStr "list",
          PList (map NewsApi.list_item
                   (NewsApi.query_page category ((page - 1) * page_size) page_size rows)));
         (KStr "total",
          PInt (Z.of_nat (List.length
                   (NewsApi.query_page category ((page - 1) * page_size) page_size rows))))].





(** Modelled from the spec: the ORM class [Category] ([models]) is not among
    the sources.  A row has the two columns the route reads. *)
Record Category : Type := MkCategory {
  cat_id : Z;
  cat_name : string
}.

Definition category_item (cat : Category) : pyval :=
  PDict [(KStr "id", PInt (cat_id cat)); (KStr "name", PStr (cat_name cat))].

Definition categories_reply (cats : list Category) : pyval :=
  PDict [(KStr "code", PInt 200); (KStr "data", PList (map category_item cats))].

(** The function under the decorator: it reads the table, its environment,
    whatever its arguments are. *)
Definition get_categories_query : pyfunc (list Category) :=
  PyFunc "get_categories" (fun _ _ cats => (Ok (categories_reply cats), cats)).

(** [@cache_result(timeout=3600, key_prefix="news") def get_categories(db)] *)
Definition get_categories : pyfunc (world (list Category)) :=
  cache_result 3600 "news" get_categories_query.

(** The keyword arguments of a request: the database session, an object
    known to the key by its [repr]. *)
Definition session_kwargs (session_repr : string) : list (string * pyval) :=
  [("db", PObj session_repr)].

(** *** Structural induction on values, through lists and dict items *)

Section pyval_induction.
Variable P : pyval -> Prop.
Hypothesis HNone : P PNone.
Hypothesis HBool : forall b, P (PBool b).
Hypothesis HInt : forall z, P (PInt z).
Hypothesis HStr : forall s, P (PStr s).
Hypothesis HList : forall l, Forall P l -> P (PList l).
Hypothesis HTuple : forall l, Forall P l -> P (PTuple l).
Hypothesis HDict : forall d, Forall (fun kv => P (snd kv)) d -> P (PDict d).
Hypothesis HObj : forall r, P (PObj r).

Fixpoint pyval_ind (v : pyval) : P v :=
  match v with
  | PNone => HNone
  | PBool b => HBool b
  | PInt z => HInt z
  | PStr s => HStr s
  | PList l =>
      HList l ((fix go (l : list pyval) : Forall P l :=
                  match l with
                  | [] => List.Forall_nil P
                  | x :: l' => @List.Forall_cons _ P x l' (pyval_ind x) (go l')
                  end) l)
  | PTuple l =>
      HTuple l ((fix go (l : list pyval) : Forall P l :=
                   match l with
                   | [] => List.Forall_nil P
                   | x :: l' => @List.Forall_cons _ P x l' (pyval_ind x) (go l')
                   end) l)
  | PDict d =>
      HDict d ((fix go (d : list (pykey * pyval)) : Forall (fun kv => P (snd kv)) d :=
                  match d with
                  | [] => List.Forall_nil _
                  | kv :: d' => @List.Forall_cons _ _ kv d' (pyval_ind (snd kv)) (go d')
                  end) d)
  | PObj r => HObj r
  end.
End pyval_induction.

(** * Properties *)

Import Json.

(** ** The JSON codec reads back what it writes *)

Lemma append_assoc (a b c : string) : (a +:+ b) +:+ c = a +:+ (b +:+ c).
Proof. induction a as [|x a IH]; cbn; [reflexivity | congruence]. Qed.

Lemma length_append (a b : string) :
  String.length (a +:+ b) = (String.length a + String.length b)%nat.
Proof. induction a as [|x a IH]; cbn; [reflexivity | congruence]. Qed.

Lemma scan_esc_char (c : ascii) (tail : string) :
  scanstring SText (esc_char c +:+ tail) = prepend (String c "") (scanstring SText tail).
Proof.
  destruct c as [[] [] [] [] [] [] [] []]; reflexivity.
Qed.

Lemma scanstring_esc_chars (s rest : string) :
  scanstring SText (esc_chars s +:+ String DQUOTE rest) = Some (s, rest).
Proof.
  induction s as [|c s IH]; [reflexivity|].
  cbn [esc_chars]. rewrite append_assoc, scan_esc_char, IH. reflexivity.
Qed.

(** Decimal digits *)

Lemma at_delim_cases (s : string) :
  at_delim s = true ->
  s = EmptyString \/ exists t, s = String "," t \/ s = String "]" t \/ s = String "}" t.
Proof.
  destruct s as [|c t]; [now left|]. cbn [at_delim]. intros H. right. exists t.
  rewrite !orb_true_iff, !Ascii.eqb_eq in H. intuition (subst; auto).
Qed.

Lemma at_delim_no_float (s : string) : at_delim s = true -> float_tail s = false.
Proof.
  intros H. destruct (at_delim_cases s H) as [->|[t [->|[->| ->]]]];
    try reflexivity; destruct t; reflexivity.
Qed.

Lemma at_delim_no_digit (s : string) : at_delim s = true -> scan_digits s = (Nil, s).
Proof.
  intros H. destruct (at_delim_cases s H) as [->|[t [->|[->| ->]]]]; reflexivity.
Qed.

Lemma scan_digits_uint (d : uint) (rest : string) :
  at_delim rest = true ->
  scan_digits (NilEmpty.string_of_uint d +:+ rest) = (d, rest).
Proof.
  intros H. induction d; cbn [NilEmpty.string_of_uint];
    [exact (at_delim_no_digit rest H) | ..];
    simpl; rewrite IHd; reflexivity.
Qed.

Lemma to_uint_head (p : positive) :
  match Pos.to_uint p with
  | Nil | D0 _ => False
  | _ => True
  end.
Proof.
  pose proof (Unsigned.to_uint_nonzero p) as Hz.
  pose proof (Unsigned.to_of (Pos.to_uint p)) as Hn.
  rewrite Unsigned.of_to in Hn. cbn [N.to_uint] in Hn.
  destruct (Pos.to_uint p) eqn:E; try exact I.
  - now apply (Unsigned.to_uint_nonnil p).
  - rewrite unorm_D0 in Hn. unfold unorm in Hn.
    destruct (nzhead u) eqn:En.
    + apply Hz. exact Hn.
    + rewrite <- Hn in En. now apply nzhead_nonzero in En.
    + discriminate. + discriminate. + discriminate. + discriminate. + discriminate.
    + discriminate. + discriminate. + discriminate. + discriminate.
Qed.

Lemma of_uint_to_uint (p : positive) : Z.of_uint (Pos.to_uint p) = Z.pos p.
Proof. unfold Z.of_uint. now rewrite Unsigned.of_to. Qed.

Lemma scan_int_uint (p : positive) (rest : string) :
  at_delim rest = true ->
  scan_int (NilEmpty.string_of_uint (Pos.to_uint p) +:+ rest) = Some (Z.pos p, rest).
Proof.
  intros H. pose proof (to_uint_head p) as Hh. pose proof (of_uint_to_uint p) as Hv.
  pose proof (scan_digits_uint (Pos.to_uint p) rest H) as Hd.
  destruct (Pos.to_uint p) as [|u|u|u|u|u|u|u|u|u|u]; try contradiction;
    cbn [NilEmpty.string_of_uint] in *; unfold scan_int; simpl in *;
    rewrite Hd, (at_delim_no_float rest H), Hv; reflexivity.
Qed.

Lemma scan_int_neg_uint (p : positive) (rest : string) :
  at_delim rest = true ->
  scan_int (String "-" (NilEmpty.string_of_uint (Pos.to_uint p) +:+ rest)) = Some (Z.neg p, rest).
Proof.
  intros H. pose proof (to_uint_head p) as Hh. pose proof (of_uint_to_uint p) as Hv.
  pose proof (scan_digits_uint (Pos.to_uint p) rest H) as Hd.
  destruct (Pos.to_uint p) as [|u|u|u|u|u|u|u|u|u|u]; try contradiction;
    cbn [NilEmpty.string_of_uint] in *; unfold scan_int; simpl in *;
    rewrite Hd, (at_delim_no_float rest H), Hv; reflexivity.
Qed.

Lemma scan_int_str_int (z : Z) (rest : string) :
  at_delim rest = true -> scan_int (str_int z +:+ rest) = Some (z, rest).
Proof.
  intros H. destruct z as [|p|p]; cbn [str_int].
  - unfold scan_int. simpl. now rewrite (at_delim_no_float rest H).
  - now apply scan_int_uint.
  - now apply scan_int_neg_uint.
Qed.

Lemma str_int_head (z : Z) (t : string) : starts_value (str_int z +:+ t).
Proof.
  destruct z as [|p|p]; cbn [str_int]; [now cbv | |];
    pose proof (to_uint_head p) as Hh;
    destruct (Pos.to_uint p) as [|u|u|u|u|u|u|u|u|u|u]; try contradiction; now cbv.
Qed.

Lemma encode_head (v : pyval) (t : string) :
  Json.serializable v = true -> starts_value (encode v +:+ t).
Proof.
  destruct v as [|[]| | | | | |]; intros H; try discriminate; try (now cbv).
  apply str_int_head.
Qed.

Lemma skip_ws_value (s : string) : starts_value s -> skip_ws s = s.
Proof. destruct s as [|c s]; [easy|]. intros [H _]. cbn [skip_ws]. now rewrite H. Qed.

Lemma native_serializable (v : pyval) : json_native v = true -> Json.serializable v = true.
Proof.
  induction v as [| | | |l IH|l IH|d IH|] using pyval_ind; cbn [json_native Json.serializable];
    try easy.
  - rewrite !forallb_forall. intros H x Hx. rewrite Forall_forall in IH.
    apply list_elem_of_In in Hx. apply IH; [exact Hx|]. apply H. now apply list_elem_of_In.
  - rewrite andb_true_iff, !forallb_forall. intros [H _] kv Hkv. rewrite Forall_forall in IH.
    apply list_elem_of_In in Hkv. apply IH; [exact Hkv|].
    apply list_elem_of_In in Hkv. specialize (H kv Hkv). now apply andb_true_iff in H.
Qed.

Lemma join_map_cons2 (f : pyval -> string) (x y : pyval) (l : list pyval) :
  join ", " (map f (x :: y :: l)) = f x +:+ ", " +:+ join ", " (map f (y :: l)).
Proof. reflexivity. Qed.

Lemma join_cons_head (f : pyval -> string) (x : pyval) (l : list pyval) (t : string) :
  exists t', join ", " (map f (x :: l)) +:+ t = f x +:+ t'.
Proof.
  destruct l as [|y l].
  - now exists t.
  - rewrite join_map_cons2. exists (", " +:+ join ", " (map f (y :: l)) +:+ t).
    now rewrite !append_assoc.
Qed.

Lemma elems_last (f : nat) (s : string) (x : pyval) (rest : string) :
  parse_value f s = Some (x, String "]" rest) ->
  parse_elems (S f) s = Some ([x], rest).
Proof. intros H. cbn [parse_elems]. rewrite H. reflexivity. Qed.

Lemma elems_more (f : nat) (s t : string) (x : pyval) (vs : list pyval) (rest : string) :
  parse_value f s = Some (x, ", " +:+ t) ->
  starts_value t ->
  parse_elems f t = Some (vs, rest) ->
  parse_elems (S f) s = Some (x :: vs, rest).
Proof.
  intros H Ht Hvs. cbn [parse_elems]. rewrite H.
  change (skip_ws (", " +:+ t)) with (String "," (String " " t)).
  cbv beta iota. change (skip_ws (String " " t)) with (skip_ws t).
  rewrite (skip_ws_value t Ht), Hvs. reflexivity.
Qed.

Lemma parse_elems_join (l : list pyval) :
  l <> [] ->
  Forall (fun x => json_native x = true /\ parses x) l ->
  forall fuel rest, (sum_list (map (fun x => S (need x)) l) <= fuel)%nat ->
    parse_elems fuel (join ", " (map encode l) +:+ String "]" rest) = Some (l, rest).
Proof.
  induction l as [|x l IHl]; [easy|]. intros _ HF fuel rest Hfuel.
  inversion HF as [|? ? [Hx Px] HF']; subst.
  cbn [map sum_list_with id] in Hfuel.
  destruct fuel as [|f]; [lia|].
  destruct l as [|y l'].
  - apply elems_last. apply Px; [lia | reflexivity].
  - rewrite join_map_cons2, !append_assoc.
    destruct (join_cons_head encode y l' (String "]" rest)) as [t' Ht'].
    eapply elems_more.
    + apply Px; [lia | reflexivity].
    + rewrite Ht'. apply encode_head, native_serializable.
      inversion HF' as [|? ? [Hy _] _]; subst. exact Hy.
    + apply IHl; [easy | exact HF' | lia].
Qed.

Lemma member_quote (kv : pykey * pyval) (t : string) :
  member kv +:+ t
  = String DQUOTE (esc_chars (key_text (fst kv))
                   +:+ String DQUOTE (": " +:+ encode (snd kv) +:+ t)).
Proof.
  unfold member, encode_str. rewrite !append_assoc.
  change (String DQUOTE ?a +:+ ?b) with (String DQUOTE (a +:+ b)).
  rewrite !append_assoc. reflexivity.
Qed.

Lemma members_last (f : nat) (k : string) (v : pyval) (rest : string) :
  json_native v = true -> parses v -> (need v <= f)%nat ->
  parse_members (S f)
    (esc_chars k +:+ String DQUOTE (": " +:+ encode v +:+ String "}" rest))
  = Some ([(k, v)], rest).
Proof.
  intros Hv Pv Hf. cbn [parse_members]. rewrite scanstring_esc_chars.
  change (skip_ws (": " +:+ ?t)) with (String ":" (String " " t)).
  cbv beta iota. change (Ascii.eqb ":" ":") with true. cbn [negb].
  change (skip_ws (String " " ?t)) with (skip_ws t).
  rewrite skip_ws_value by (apply encode_head, native_serializable, Hv).
  rewrite Pv by first [lia | reflexivity]. reflexivity.
Qed.

Lemma members_more (f : nat) (k : string) (v : pyval) (t : string)
    (ps : list (string * pyval)) (rest : string) :
  json_native v = true -> parses v -> (need v <= f)%nat ->
  parse_members f t = Some (ps, rest) ->
  parse_members (S f)
    (esc_chars k +:+ String DQUOTE (": " +:+ encode v +:+ ", " +:+ String DQUOTE t))
  = Some ((k, v) :: ps, rest).
Proof.
  intros Hv Pv Hf Hps. cbn [parse_members]. rewrite scanstring_esc_chars.
  change (skip_ws (": " +:+ ?t)) with (String ":" (String " " t)).
  cbv beta iota. change (Ascii.eqb ":" ":") with true. cbn [negb].
  change (skip_ws (String " " ?t)) with (skip_ws t).
  rewrite skip_ws_value by (apply encode_head, native_serializable, Hv).
  rewrite Pv by first [lia | reflexivity].
  change (skip_ws (", " +:+ ?t)) with (String "," (String " " t)).
  cbv beta iota. change (skip_ws (String " " (String DQUOTE t))) with (String DQUOTE t).
  cbv beta iota. change (Ascii.eqb DQUOTE DQUOTE) with true. cbv beta iota.
  rewrite Hps. reflexivity.
Qed.

Lemma parse_members_join (d : list (pykey * pyval)) :
  d <> [] ->
  Forall (fun kv => json_native (snd kv) = true /\ parses (snd kv)) d ->
  forall fuel rest, (sum_list (map (fun kv => S (need (snd kv))) d) <= fuel)%nat ->
    exists t, join ", " (map member d) +:+ String "}" rest = String DQUOTE t /\
              parse_members fuel t = Some (map pair_of d, rest).
Proof.
  induction d as [|kv d IHd]; [easy|]. intros _ HF fuel rest Hfuel.
  inversion HF as [|? ? [Hv Pv] HF']; subst.
  cbn [map sum_list_with id] in Hfuel.
  destruct fuel as [|f]; [lia|].
  destruct d as [|kv2 d'].
  - cbn [map join]. rewrite member_quote. eexists. split; [reflexivity|].
    apply members_last; [exact Hv | exact Pv | lia].
  - destruct (IHd ltac:(easy) HF' f rest ltac:(lia)) as [t [Ht Hp]].
    change (join ", " (map member (kv :: kv2 :: d')))
      with (member kv +:+ ", " +:+ join ", " (map member (kv2 :: d'))).
    rewrite !append_assoc, Ht, member_quote. eexists. split; [reflexivity|].
    apply members_more; [exact Hv | exact Pv | lia | exact Hp].
Qed.

Lemma dict_set_fresh (d : list (pykey * pyval)) (k : string) (v : pyval) :
  KStr k ∉ map fst d -> dict_set d k v = d ++ [(KStr k, v)].
Proof.
  induction d as [|[k' v'] d IH]; [reflexivity|]. cbn [map fst]. intros Hn.
  apply not_elem_of_cons in Hn as [Hne Hn]. cbn [dict_set app].
  destruct k' as [s| | |]; try (now rewrite IH).
  destruct (String.eqb_spec s k) as [->|_]; [congruence|]. now rewrite IH.
Qed.

Lemma dict_of_pairs_go (l : list (string * pyval)) (acc : list (pykey * pyval)) :
  NoDup (map fst l) ->
  (forall k, k ∈ map fst l -> KStr k ∉ map fst acc) ->
  fold_left (fun d kv => dict_set d (fst kv) (snd kv)) l acc
  = acc ++ map (fun kv => (KStr (fst kv), snd kv)) l.
Proof.
  revert acc. induction l as [|[k v] l IH]; intros acc Hnd Hacc.
  - cbn. now rewrite app_nil_r.
  - cbn [map fst] in Hnd. apply NoDup_cons in Hnd as [Hk Hnd].
    cbn [fold_left fst snd map]. rewrite dict_set_fresh.
    2:{ apply Hacc. cbn [map fst]. apply list_elem_of_here. }
    rewrite IH; [now rewrite <- app_assoc | exact Hnd |].
    intros k' Hk'. rewrite map_app. cbn [map fst].
    rewrite elem_of_app, list_elem_of_singleton. intros [Hin|Heq].
    + revert Hin. apply Hacc. cbn [map fst]. now apply list_elem_of_further.
    + injection Heq as ->. contradiction.
Qed.

Lemma dict_of_pairs_native (d : list (pykey * pyval)) :
  forallb (fun kv => is_kstr (fst kv)) d = true ->
  NoDup (map (fun kv => key_text (fst kv)) d) ->
  dict_of_pairs (map pair_of d) = d.
Proof.
  intros Hk Hnd. unfold dict_of_pairs. rewrite dict_of_pairs_go.
  - cbn [app]. rewrite map_map. rewrite forallb_forall in Hk.
    rewrite <- (map_id d) at 2. apply map_ext_in. intros [k v] Hin.
    specialize (Hk _ Hin). destruct k; try discriminate. reflexivity.
  - now rewrite map_map.
  - intros k _. cbn [map]. apply not_elem_of_nil.
Qed.

Lemma parse_value_encode (v : pyval) : json_native v = true -> parses v.
Proof.
  induction v as [|b|z|s|l IH|l IH|d IH|r] using pyval_ind; intros Hn fuel rest Hf Hd;
    cbn [json_native] in Hn; try discriminate;
    (destruct fuel as [|f]; [cbn [need] in Hf; lia|]).
  - reflexivity.
  - destruct b; reflexivity.
  - cbn [encode]. pose proof (str_int_head z rest) as Hh.
    pose proof (scan_int_str_int z rest Hd) as Hs.
    destruct (str_int z +:+ rest) as [|c t] eqn:E; [contradiction|].
    cbn [parse_value]. rewrite Hs.
    assert (Hc : Ascii.eqb c DQUOTE = false /\ Ascii.eqb c "{" = false /\
                 Ascii.eqb c "[" = false /\ Ascii.eqb c "n" = false /\
                 Ascii.eqb c "t" = false /\ Ascii.eqb c "f" = false).
    { destruct z as [|p|p]; cbn [str_int] in E.
      - injection E as <- _. now cbv.
      - pose proof (to_uint_head p) as Hp.
        destruct (Pos.to_uint p); try contradiction; injection E as <- _; now cbv.
      - injection E as <- _. now cbv. }
    destruct Hc as (-> & -> & -> & -> & -> & ->). reflexivity.
  - cbn [encode]. unfold encode_str.
    change (String DQUOTE ?a +:+ ?b) with (String DQUOTE (a +:+ b)).
    rewrite append_assoc. cbn [parse_value].
    change (Ascii.eqb DQUOTE DQUOTE) with true. cbv beta iota.
    change (String DQUOTE "" +:+ rest) with (String DQUOTE rest).
    now rewrite scanstring_esc_chars.
  - cbn [encode need] in *. rewrite !append_assoc.
    change ("[" +:+ ?t) with (String "[" t). change ("]" +:+ ?t) with (String "]" t).
    cbn [parse_value]. change (Ascii.eqb "[" DQUOTE) with false.
    change (Ascii.eqb "[" "{") with false. change (Ascii.eqb "[" "[") with true.
    cbv beta iota.
    destruct l as [|x l']; [reflexivity|].
    assert (HF : Forall (fun x => json_native x = true /\ parses x) (x :: l')).
    { rewrite forallb_forall in Hn. rewrite Forall_forall in IH |- *.
      intros y Hy. split; [apply Hn; now apply list_elem_of_In|].
      apply IH; [exact Hy|]. apply Hn. now apply list_elem_of_In. }
    destruct (join_cons_head encode x l' (String "]" rest)) as [t' Ht'].
    pose proof (encode_head x t') as Hh. rewrite <- Ht' in Hh.
    assert (Hx : Json.serializable x = true).
    { apply native_serializable. inversion HF as [|? ? [Hx _] _]. exact Hx. }
    specialize (Hh Hx).
    pose proof (parse_elems_join (x :: l') ltac:(easy) HF f rest ltac:(lia)) as Hp.
    rewrite (skip_ws_value _ Hh).
    destruct (join ", " (map encode (x :: l')) +:+ String "]" rest) as [|c1 r1];
      [contradiction|].
    destruct Hh as (_ & -> & _). rewrite Hp. reflexivity.
  - cbn [encode need] in *. apply andb_true_iff in Hn as [Hn Hnd].
    apply bool_decide_eq_true in Hnd.
    change (fun kv : pykey * pyval =>
              encode_str (key_text (fst kv)) +:+ ": " +:+ encode (snd kv)) with member.
    rewrite !append_assoc.
    change ("{" +:+ ?t) with (String "{" t). change ("}" +:+ ?t) with (String "}" t).
    cbn [parse_value]. change (Ascii.eqb "{" DQUOTE) with false.
    change (Ascii.eqb "{" "{") with true. cbv beta iota.
    destruct d as [|kv d']; [reflexivity|].
    assert (HF : Forall (fun kv => json_native (snd kv) = true /\ parses (snd kv)) (kv :: d')).
    { rewrite forallb_forall in Hn. rewrite Forall_forall in IH |- *.
      intros y Hy. pose proof (Hn y ltac:(now apply list_elem_of_In)) as Hy'.
      apply andb_true_iff in Hy' as [_ Hy']. split; [exact Hy'|]. now apply IH. }
    destruct (parse_members_join (kv :: d') ltac:(easy) HF f rest ltac:(lia))
      as [t [Ht Hp]].
    rewrite Ht.
    change (skip_ws (String DQUOTE t)) with (String DQUOTE t). cbv beta iota.
    change (Ascii.eqb DQUOTE "}") with false. change (Ascii.eqb DQUOTE DQUOTE) with true.
    cbv beta iota. rewrite Hp, dict_of_pairs_native; [reflexivity | | exact Hnd].
    rewrite forallb_forall in Hn |- *. intros y Hy. specialize (Hn y Hy).
    now apply andb_true_iff in Hn.
Qed.

Lemma length_join_encode (f : pyval -> string) (l : list pyval) :
  Forall (fun x => (need x <= String.length (f x))%nat) l ->
  (sum_list (map (fun x => S (need x)) l) <= S (String.length (join ", " (map f l))))%nat.
Proof.
  induction l as [|x l IH]; intros HF; [cbn; lia|].
  inversion HF as [|? ? Hx HF']; subst. specialize (IH HF').
  destruct l as [|y l'].
  - cbn [map join sum_list_with id]. lia.
  - rewrite join_map_cons2, !length_append.
    change (map (fun x => S (need x)) (x :: y :: l'))
      with (S (need x) :: map (fun x => S (need x)) (y :: l')).
    cbn [sum_list_with id]. cbn [String.length]. lia.
Qed.

Lemma length_join_member (d : list (pykey * pyval)) :
  Forall (fun kv => (need (snd kv) <= String.length (encode (snd kv)))%nat) d ->
  (sum_list (map (fun kv => S (need (snd kv))) d)
   <= S (String.length (join ", " (map member d))))%nat.
Proof.
  induction d as [|x l IH]; intros HF; [cbn; lia|].
  inversion HF as [|? ? Hx HF']; subst. specialize (IH HF').
  assert (Hm : (need (snd x) <= String.length (member x))%nat).
  { unfold member. rewrite !length_append. lia. }
  destruct l as [|y l'].
  - cbn [map join sum_list_with id]. lia.
  - change (join ", " (map member (x :: y :: l')))
      with (member x +:+ ", " +:+ join ", " (map member (y :: l'))).
    rewrite !length_append.
    change (map (fun kv => S (need (snd kv))) (x :: y :: l'))
      with (S (need (snd x)) :: map (fun kv => S (need (snd kv))) (y :: l')).
    cbn [sum_list_with id]. cbn [String.length]. lia.
Qed.

Lemma need_le_length (v : pyval) :
  Json.serializable v = true -> (need v <= String.length (encode v))%nat.
Proof.
  induction v as [|b|z|s|l IH|l IH|d IH|r] using pyval_ind; intros Hs;
    cbn [Json.serializable] in Hs; try discriminate; cbn [need encode].
  - cbn. lia.
  - destruct b; cbn; lia.
  - pose proof (str_int_head z "") as Hh.
    destruct (str_int z) as [|c t]; [contradiction| cbn; lia].
  - unfold encode_str. cbn. lia.
  - rewrite !length_append. cbn [String.length].
    assert (HF : Forall (fun x => (need x <= String.length (encode x))%nat) l).
    { rewrite forallb_forall in Hs. rewrite Forall_forall in IH |- *.
      intros y Hy. apply IH; [exact Hy|]. apply Hs. now apply list_elem_of_In. }
    pose proof (length_join_encode encode l HF). lia.
  - rewrite !length_append. cbn [String.length].
    assert (HF : Forall (fun x => (need x <= String.length (encode x))%nat) l).
    { rewrite forallb_forall in Hs. rewrite Forall_forall in IH |- *.
      intros y Hy. apply IH; [exact Hy|]. apply Hs. now apply list_elem_of_In. }
    pose proof (length_join_encode encode l HF). lia.
  - change (fun kv : pykey * pyval =>
              encode_str (key_text (fst kv)) +:+ ": " +:+ encode (snd kv)) with member.
    rewrite !length_append. cbn [String.length].
    assert (HF : Forall (fun kv => (need (snd kv) <= String.length (encode (snd kv)))%nat) d).
    { rewrite forallb_forall in Hs. rewrite Forall_forall in IH |- *.
      intros y Hy. apply IH; [exact Hy|]. apply Hs. now apply list_elem_of_In. }
    pose proof (length_join_member d HF). lia.
Qed.

Lemma append_empty_r (s : string) : s +:+ "" = s.
Proof. induction s as [|c s IH]; [reflexivity|]. simpl. now rewrite IH. Qed.

(** [json.loads(json.dumps(v))] gives [v] back for a JSON-native [v]. *)
Lemma loads_encode (v : pyval) : json_native v = true -> loads (encode v) = Ok v.
Proof.
  intros Hn. pose proof (native_serializable v Hn) as Hs.
  pose proof (encode_head v "" Hs) as Hh. rewrite append_empty_r in Hh.
  unfold loads. rewrite (skip_ws_value _ Hh).
  pose proof (parse_value_encode v Hn (S (2 * String.length (encode v))) "") as Hp.
  rewrite append_empty_r in Hp. rewrite Hp; [reflexivity | | reflexivity].
  pose proof (need_le_length v Hs). lia.
Qed.

(** ** The server and the class *)

Lemma encode_nonempty (v : pyval) :
  Json.serializable v = true -> String.eqb (Json.encode v) "" = false.
Proof.
  intros Hs. pose proof (encode_head v "" Hs) as Hh. rewrite append_empty_r in Hh.
  destruct (Json.encode v); [contradiction | reflexivity].
Qed.

Lemma get_unreachable (key : string) (r : Redis.server) :
  Redis.connected r = false -> RedisCache.get key r = PNone.
Proof.
  intros H. unfold RedisCache.get, RedisCache.get_body, Redis.GET. now rewrite H.
Qed.

Lemma get_absent (key : string) (r : Redis.server) :
  Redis.lookup r key = None -> RedisCache.get key r = PNone.
Proof.
  intros H. unfold RedisCache.get, RedisCache.get_body, Redis.GET. rewrite H.
  now destruct (Redis.connected r).
Qed.

Lemma get_present (key : string) (r : Redis.server) (e : Redis.entry) :
  Redis.connected r = true -> Redis.lookup r key = Some e ->
  String.eqb (Redis.value e) "" = false ->
  RedisCache.get key r = try_except (Json.loads (Redis.value e)) (fun _ => PNone).
Proof.
  intros Hc Hl Hne. unfold RedisCache.get, RedisCache.get_body, Redis.GET.
  rewrite Hc, Hl. cbn. now rewrite Hne.
Qed.

Lemma set_spec (key : string) (v : pyval) (timeout : Z) (r : Redis.server) :
  RedisCache.set key v timeout r =
  if Redis.connected r && (0 <? timeout)%Z && Json.serializable v
  then (true, stored key v timeout r) else (false, r).
Proof.
  unfold RedisCache.set, RedisCache.set_body, Json.dumps, Redis.SETEX, stored.
  destruct (Json.serializable v), (Redis.connected r); cbn; try reflexivity;
    try (rewrite andb_false_r; reflexivity).
  rewrite andb_true_r. destruct (Z.leb_spec timeout 0), (Z.ltb_spec 0 timeout);
    try lia; reflexivity.
Qed.

Lemma set_true (key : string) (v : pyval) (timeout : Z) (r r' : Redis.server) :
  RedisCache.set key v timeout r = (true, r') ->
  Redis.connected r = true /\ (0 < timeout)%Z /\ Json.serializable v = true /\
  r' = stored key v timeout r.
Proof.
  rewrite set_spec.
  destruct (Redis.connected r), (Z.ltb_spec 0 timeout), (Json.serializable v);
    cbn; intros Heq; inversion Heq; auto.
Qed.

Lemma set_false (key : string) (v : pyval) (timeout : Z) (r : Redis.server) :
  fst (RedisCache.set key v timeout r) = false -> snd (RedisCache.set key v timeout r) = r.
Proof.
  rewrite set_spec.
  destruct (Redis.connected r && (0 <? timeout)%Z && Json.serializable v); [discriminate | reflexivity].
Qed.

Lemma lookup_stored_live (key : string) (v : pyval) (timeout ms : Z) (r : Redis.server) :
  (ms <= 1000 * timeout)%Z ->
  Redis.lookup (Redis.tick ms (stored key v timeout r)) key
  = Some (Redis.Entry (Json.encode v) (Some (Redis.clock r + 1000 * timeout)%Z)).
Proof.
  intros H. unfold Redis.lookup, Redis.tick, stored. cbn.
  rewrite lookup_insert_eq. unfold Redis.live. cbn.
  destruct (Z.leb_spec (Redis.clock r + ms) (Redis.clock r + 1000 * timeout)); [reflexivity | lia].
Qed.

Lemma lookup_stored_expired (key : string) (v : pyval) (timeout ms : Z) (r : Redis.server) :
  (1000 * timeout < ms)%Z ->
  Redis.lookup (Redis.tick ms (stored key v timeout r)) key = None.
Proof.
  intros H. unfold Redis.lookup, Redis.tick, stored. cbn.
  rewrite lookup_insert_eq. unfold Redis.live. cbn.
  destruct (Z.leb_spec (Redis.clock r + ms) (Redis.clock r + 1000 * timeout)); [lia | reflexivity].
Qed.

(** What [get] answers for the text of a value, while the entry lives. *)
Lemma get_stored (key : string) (v : pyval) (timeout ms : Z) (r : Redis.server) :
  Redis.connected r = true -> Json.serializable v = true ->
  (ms <= 1000 * timeout)%Z ->
  RedisCache.get key (Redis.tick ms (stored key v timeout r))
  = try_except (Json.loads (Json.encode v)) (fun _ => PNone).
Proof.
  intros Hc Hs Hms.
  rewrite (get_present key _ _ (Hc : Redis.connected (Redis.tick ms (stored key v timeout r)) = true)
             (lookup_stored_live key v timeout ms r Hms));
    [reflexivity | now apply encode_nonempty].
Qed.

(** A JSON-native value is accepted and, while its entry lives, read back
    as it was stored. *)
Lemma get_after_set_native (key : string) (v : pyval) (timeout ms : Z) (r : Redis.server) :
  Redis.connected r = true ->
  json_native v = true ->
  (0 < timeout)%Z ->
  (ms <= 1000 * timeout)%Z ->
  fst (RedisCache.set key v timeout r) = true /\
  RedisCache.get key (Redis.tick ms (snd (RedisCache.set key v timeout r))) = v.
Proof.
  intros Hc Hn Ht Hms. pose proof (native_serializable v Hn) as Hs.
  rewrite set_spec, Hc, Hs. destruct (Z.ltb_spec 0 timeout); [|lia]. cbn.
  split; [reflexivity|].
  rewrite get_stored by auto. now rewrite loads_encode.
Qed.

Lemma delete_spec (key : string) (r : Redis.server) :
  RedisCache.delete key r =
  if Redis.connected r
  then (true, Redis.Server (Redis.connected r) (Redis.clock r) (base.delete key (Redis.data r)))
  else (false, r).
Proof.
  unfold RedisCache.delete, RedisCache.delete_body, Redis.DEL.
  destruct (Redis.connected r); reflexivity.
Qed.

(** ** The class: round trip, expiry, deletion, failures *)




(** C9: an entry that [set(key, v, timeout)] stored carries the expiry
    [timeout] seconds after the store, and a [get(key)] later than that
    returns None. *)
Theorem entry_expires_after_ttl (key : string) (v : pyval) (timeout ms : Z)
    (r r' : Redis.server) :
  RedisCache.set key v timeout r = (true, r') ->
  (1000 * timeout < ms)%Z ->
  Redis.data r' !! key
  = Some (Redis.Entry (Json.encode v) (Some (Redis.clock r + 1000 * timeout)%Z)) /\
  RedisCache.get key (Redis.tick ms r') = PNone.
Proof.
  intros Hset Hms. apply set_true in Hset as (Hc & Ht & Hs & ->). split.
  - unfold stored. cbn. apply lookup_insert_eq.
  - apply get_absent. now apply lookup_stored_expired.
Qed.

Lemma entry_expires_after_ttl_witness :
  Redis.data (Redis.Server true 5000 (<[ "k" := Redis.Entry "{}" (Some 305000%Z) ]> ∅)) !! "k"
  = Some (Redis.Entry (Json.encode (PDict [])) (Some (5000 + 1000 * 300)%Z)) /\
  RedisCache.get "k"
    (Redis.tick 300001 (Redis.Server true 5000 (<[ "k" := Redis.Entry "{}" (Some 305000%Z) ]> ∅)))
  = PNone.
Proof.
  apply (entry_expires_after_ttl "k" (PDict []) 300 300001 (Redis.Server true 5000 ∅));
    [reflexivity | lia].
Defined.



(** C6: [get] answers None whenever its [try] block raises; it does so on
    a connection error, it answers None on a miss, and it answers None when
    the stored text does not decode. *)
Theorem get_never_raises (key : string) (r : Redis.server) :
  (forall e, RedisCache.get_body key r = Raise e -> RedisCache.get key r = PNone) /\
  (Redis.connected r = false ->
     RedisCache.get_body key r = Raise ConnectionError /\ RedisCache.get key r = PNone) /\
  (Redis.lookup r key = None -> RedisCache.get key r = PNone) /\
  (forall e x, Redis.lookup r key = Some e -> Json.loads (Redis.value e) = Raise x ->
     RedisCache.get key r = PNone).
Proof.
  split; [|split; [|split]].
  - intros e He. unfold RedisCache.get. now rewrite He.
  - intros Hc. split; [|now apply get_unreachable].
    unfold RedisCache.get_body, Redis.GET. now rewrite Hc.
  - apply get_absent.
  - intros e x Hl Hx. unfold RedisCache.get, RedisCache.get_body, Redis.GET.
    rewrite Hl. destruct (Redis.connected r); [|reflexivity]. cbn.
    destruct (String.eqb (Redis.value e) ""); [reflexivity|]. cbn. now rewrite Hx.
Qed.

Lemma get_never_raises_witness :
  RedisCache.get "k" (Redis.Server false 0 (<[ "k" := Redis.Entry "[1]" None ]> ∅)) = PNone.
Proof.
  apply (proj2 (proj1 (proj2
           (get_never_raises "k" (Redis.Server false 0 (<[ "k" := Redis.Entry "[1]" None ]> ∅))))
           eq_refl)).
Defined.

(** ** The decorator *)

Section Wrapper.
Context {U : Type}.
Variables (timeout : Z) (key_prefix : string) (func : pyfunc U).
Variables (args : list pyval) (kwargs : list (string * pyval)).

Local Notation "'the_key'" := (wrapper_key key_prefix func args kwargs).
Local Notation "'call'" := (wrapper timeout key_prefix func args kwargs).

Lemma wrapper_hit (w : world U) :
  truthy (RedisCache.get the_key (cache w)) = true ->
  call w = (Ok (RedisCache.get the_key (cache w)), w).
Proof. intros H. unfold wrapper. now rewrite H. Qed.

Lemma wrapper_miss_raise (w : world U) (e : pyexn) (env' : U) :
  truthy (RedisCache.get the_key (cache w)) = false ->
  func_call func args kwargs (env w) = (Raise e, env') ->
  call w = (Raise e, World (cache w) env' (S (calls w))).
Proof. intros H Hf. unfold wrapper. now rewrite H, Hf. Qed.

Lemma wrapper_miss_ok (w : world U) (v : pyval) (env' : U) :
  truthy (RedisCache.get the_key (cache w)) = false ->
  func_call func args kwargs (env w) = (Ok v, env') ->
  call w = (Ok v, World (snd (RedisCache.set the_key v timeout (cache w))) env' (S (calls w))).
Proof.
  intros H Hf. unfold wrapper. rewrite H, Hf.
  now destruct (RedisCache.set the_key v timeout (cache w)).
Qed.

Lemma wrapper_miss_calls (w : world U) :
  truthy (RedisCache.get the_key (cache w)) = false ->
  calls (snd (call w)) = S (calls w).
Proof.
  intros H. destruct (func_call func args kwargs (env w)) as [[v|e] env'] eqn:Hf.
  - now rewrite (wrapper_miss_ok w v env' H Hf).
  - now rewrite (wrapper_miss_raise w e env' H Hf).
Qed.

(** C3: when the wrapper misses and the wrapped function raises, the call
    raises the same exception, the function has been invoked once, and the
    cache is as it was. *)
Theorem failing_compute_propagates (w : world U) (e : pyexn) (env' : U) :
  truthy (RedisCache.get the_key (cache w)) = false ->
  func_call func args kwargs (env w) = (Raise e, env') ->
  fst (call w) = Raise e /\
  calls (snd (call w)) = S (calls w) /\
  cache (snd (call w)) = cache w.
Proof. intros H Hf. now rewrite (wrapper_miss_raise w e env' H Hf). Qed.

(** C4: when the wrapper misses, the wrapped function returns [v] and the
    store of [v] fails ([set] returns False), the call returns [v]. *)
Theorem failed_store_still_returns (w : world U) (v : pyval) (env' : U) :
  truthy (RedisCache.get the_key (cache w)) = false ->
  func_call func args kwargs (env w) = (Ok v, env') ->
  fst (RedisCache.set the_key v timeout (cache w)) = false ->
  call w = (Ok v, World (cache w) env' (S (calls w))).
Proof.
  intros H Hf Hset. rewrite (wrapper_miss_ok w v env' H Hf).
  now rewrite (set_false the_key v timeout (cache w) Hset).
Qed.








End Wrapper.

Lemma failing_compute_propagates_witness :
  fst (wrapper 300 "news" (failing "database is down") [] [] fresh_world)
  = Raise (AppError "database is down") /\
  calls (snd (wrapper 300 "news" (failing "database is down") [] [] fresh_world)) = 1%nat /\
  cache (snd (wrapper 300 "news" (failing "database is down") [] [] fresh_world))
  = cache fresh_world.
Proof.
  apply (failing_compute_propagates 300 "news" (failing "database is down") [] []
           fresh_world (AppError "database is down") 1%nat); reflexivity.
Defined.

Lemma failed_store_still_returns_witness :
  wrapper 300 "news" (counting with_datetime) [] [] fresh_world
  = (Ok with_datetime, World (cache fresh_world) 1%nat 1%nat).
Proof.
  apply (failed_store_still_returns 300 "news" (counting with_datetime) [] [] fresh_world);
    reflexivity.
Defined.




(** ** Clearing by pattern *)








(** ** Invalidation by the mutation handlers *)

Section Invalidation.
Import NewsApi.

Lemma key_gone_get (k : string) (r : Redis.server) :
  key_gone k r -> RedisCache.get k r = PNone.
Proof.
  intros H. destruct (Redis.connected r) eqn:Hc; [|now apply get_unreachable].
  apply get_absent. unfold Redis.lookup. now rewrite (H Hc).
Qed.

Lemma delete_connected (k : string) (r : Redis.server) :
  Redis.connected (snd (RedisCache.delete k r)) = Redis.connected r.
Proof. rewrite delete_spec. destruct (Redis.connected r) eqn:E; cbn; auto. Qed.

Lemma delete_key_gone (k : string) (r : Redis.server) :
  key_gone k (snd (RedisCache.delete k r)).
Proof.
  intros Hc. rewrite delete_connected in Hc. rewrite delete_spec, Hc. cbn.
  apply lookup_delete_eq.
Qed.

Lemma delete_keeps_gone (k k' : string) (r : Redis.server) :
  key_gone k r -> key_gone k (snd (RedisCache.delete k' r)).
Proof.
  intros H Hc. rewrite delete_connected in Hc. rewrite delete_spec, Hc. cbn.
  apply lookup_delete_None. right. now apply H.
Qed.

Lemma clear_list_pages_keeps_gone (k : string) (category : Z) (r : Redis.server) :
  key_gone k r -> key_gone k (clear_list_pages category r).
Proof.
  intros H. unfold clear_list_pages. cbn [fold_left].
  repeat apply delete_keeps_gone. exact H.
Qed.







End Invalidation.

(** * Further properties of the code *)

(** ** The class, further *)







Lemma lookup_set_other (key k' : string) (v : pyval) (timeout : Z) (r : Redis.server) :
  k' <> key ->
  Redis.lookup (snd (RedisCache.set key v timeout r)) k' = Redis.lookup r k'.
Proof.
  intros Hne. rewrite set_spec.
  destruct (Redis.connected r && (0 <? timeout)%Z && Json.serializable v); [|reflexivity].
  unfold Redis.lookup, stored. cbn. now rewrite lookup_insert_ne by congruence.
Qed.

Lemma set_connected (key : string) (v : pyval) (timeout : Z) (r : Redis.server) :
  Redis.connected (snd (RedisCache.set key v timeout r)) = Redis.connected r.
Proof.
  rewrite set_spec.
  destruct (Redis.connected r && (0 <? timeout)%Z && Json.serializable v); reflexivity.
Qed.

Lemma get_of_lookup (k : string) (r r' : Redis.server) :
  Redis.connected r' = Redis.connected r -> Redis.lookup r' k = Redis.lookup r k ->
  RedisCache.get k r' = RedisCache.get k r.
Proof.
  intros Hc Hl. unfold RedisCache.get, RedisCache.get_body, Redis.GET. now rewrite Hc, Hl.
Qed.

Lemma exists_of_lookup (k : string) (r r' : Redis.server) :
  Redis.connected r' = Redis.connected r -> Redis.lookup r' k = Redis.lookup r k ->
  RedisCache.exists_ k r' = RedisCache.exists_ k r.
Proof.
  intros Hc Hl. unfold RedisCache.exists_, RedisCache.exists_body, Redis.EXISTS.
  now rewrite Hc, Hl.
Qed.

(** X3: [set(key, ..)] changes what [get] and [exists] answer for no other
    key. *)
Theorem set_leaves_other_keys (key k' : string) (v : pyval) (timeout : Z) (r : Redis.server) :
  k' <> key ->
  RedisCache.get k' (snd (RedisCache.set key v timeout r)) = RedisCache.get k' r /\
  RedisCache.exists_ k' (snd (RedisCache.set key v timeout r)) = RedisCache.exists_ k' r.
Proof.
  intros Hne. split; [apply get_of_lookup | apply exists_of_lookup];
    auto using set_connected, lookup_set_other.
Qed.

Lemma set_leaves_other_keys_witness :
  RedisCache.get "news:detail:3" (snd (RedisCache.set "news:detail:4" categories 3600 sample_store))
  = RedisCache.get "news:detail:3" sample_store /\
  RedisCache.exists_ "news:detail:3"
    (snd (RedisCache.set "news:detail:4" categories 3600 sample_store))
  = RedisCache.exists_ "news:detail:3" sample_store.
Proof.
  apply (set_leaves_other_keys "news:detail:4" "news:detail:3" categories 3600 sample_store).
  discriminate.
Defined.

(** X4: a [set] that succeeds replaces the value and the expiry an earlier
    [set] of the same key left: the store is as if the earlier [set] had not
    happened. *)
Theorem set_overwrites (key : string) (v1 v2 : pyval) (t1 t2 : Z) (r : Redis.server) :
  fst (RedisCache.set key v2 t2 r) = true ->
  RedisCache.set key v2 t2 (snd (RedisCache.set key v1 t1 r)) = RedisCache.set key v2 t2 r.
Proof.
  intros H2. rewrite (set_spec key v2 t2 r) in *.
  destruct (Redis.connected r && (0 <? t2)%Z && Json.serializable v2) eqn:E; [|discriminate].
  apply andb_true_iff in E as [E Hs2]. apply andb_true_iff in E as [Hc Ht2].
  rewrite (set_spec key v1 t1 r), Hc.
  destruct (true && (0 <? t1)%Z && Json.serializable v1).
  - rewrite set_spec. cbn [snd]. unfold stored at 1 2. cbn. rewrite Hc, Ht2, Hs2. cbn.
    unfold stored. cbn. rewrite Hc. now rewrite insert_insert_eq.
  - cbn [snd]. rewrite set_spec, Hc, Ht2, Hs2. reflexivity.
Qed.

Lemma set_overwrites_witness :
  RedisCache.set "k" categories 60 (snd (RedisCache.set "k" int_keyed 3600 (Redis.Server true 0 ∅)))
  = RedisCache.set "k" categories 60 (Redis.Server true 0 ∅).
Proof.
  apply (set_overwrites "k" int_keyed categories 3600 60 (Redis.Server true 0 ∅)). reflexivity.
Defined.

Lemma exists_spec (key : string) (r : Redis.server) :
  RedisCache.exists_ key r = true <->
  Redis.connected r = true /\ is_Some (Redis.lookup r key).
Proof.
  unfold RedisCache.exists_, RedisCache.exists_body, Redis.EXISTS.
  destruct (Redis.connected r); cbn.
  - destruct (Redis.lookup r key); cbn; split.
    + intros _. split; [reflexivity | now eexists].
    + reflexivity.
    + discriminate.
    + intros [_ [x Hx]]. discriminate.
  - split; [discriminate | intros [H _]; discriminate].
Qed.

(** X5: [exists(key)] is True exactly when the store is reachable and holds
    a live entry under the key; whenever [get(key)] returns something other
    than None, [exists(key)] is True. *)
Theorem exists_tracks_visible_entries (key : string) (r : Redis.server) :
  (RedisCache.exists_ key r = true <->
   Redis.connected r = true /\ is_Some (Redis.lookup r key)) /\
  (RedisCache.get key r <> PNone -> RedisCache.exists_ key r = true).
Proof.
  split; [apply exists_spec|]. intros Hg. apply exists_spec.
  destruct (Redis.connected r) eqn:Hc.
  - split; [reflexivity|]. destruct (Redis.lookup r key) eqn:Hl; [now eexists|].
    exfalso. apply Hg. now apply get_absent.
  - exfalso. apply Hg. now apply get_unreachable.
Qed.

Lemma exists_tracks_visible_entries_witness :
  RedisCache.exists_ "news:detail:3" sample_store = true.
Proof.
  apply (proj2 (exists_tracks_visible_entries "news:detail:3" sample_store)).
  vm_compute. discriminate.
Defined.

(** X6: after a [set(key, v, timeout)] that returned True, [exists(key)]
    is True up to [timeout] seconds later and False after that. *)
Theorem exists_until_expiry (key : string) (v : pyval) (timeout ms : Z) (r r' : Redis.server) :
  RedisCache.set key v timeout r = (true, r') ->
  RedisCache.exists_ key (Redis.tick ms r') = (ms <=? 1000 * timeout)%Z.
Proof.
  intros Hset. apply set_true in Hset as (Hc & Ht & Hs & ->).
  destruct (Z.leb_spec ms (1000 * timeout)) as [Hle|Hgt].
  - apply exists_spec. split; [exact Hc|].
    rewrite lookup_stored_live by exact Hle. now eexists.
  - destruct (RedisCache.exists_ key (Redis.tick ms (stored key v timeout r))) eqn:E;
      [|reflexivity].
    apply exists_spec in E as [_ [x Hx]].
    rewrite lookup_stored_expired in Hx by exact Hgt. discriminate.
Qed.

Lemma exists_until_expiry_witness :
  RedisCache.exists_ "k"
    (Redis.tick 300001 (Redis.Server true 5000 (<[ "k" := Redis.Entry "{}" (Some 305000%Z) ]> ∅)))
  = (300001 <=? 1000 * 300)%Z.
Proof.
  apply (exists_until_expiry "k" (PDict []) 300 300001 (Redis.Server true 5000 ∅)).
  reflexivity.
Defined.

Lemma lookup_delete_other (key k' : string) (r : Redis.server) :
  k' <> key ->
  Redis.lookup (snd (RedisCache.delete key r)) k' = Redis.lookup r k'.
Proof.
  intros Hne. rewrite delete_spec. destruct (Redis.connected r); [|reflexivity].
  unfold Redis.lookup. cbn. now rewrite lookup_delete_ne by congruence.
Qed.

(** X7: [delete(key)] done twice is [delete(key)] done once; after it
    [exists(key)] is False; and it changes what [get] and [exists] answer
    for no other key. *)
Theorem delete_is_idempotent_and_local (key : string) (r : Redis.server) :
  RedisCache.delete key (snd (RedisCache.delete key r)) = RedisCache.delete key r /\
  RedisCache.exists_ key (snd (RedisCache.delete key r)) = false /\
  (forall k', k' <> key ->
     RedisCache.get k' (snd (RedisCache.delete key r)) = RedisCache.get k' r /\
     RedisCache.exists_ k' (snd (RedisCache.delete key r)) = RedisCache.exists_ k' r).
Proof.
  split; [|split].
  - rewrite (delete_spec key r). destruct (Redis.connected r) eqn:Hc; cbn [snd].
    + rewrite delete_spec. cbn. now rewrite delete_delete_eq.
    + rewrite delete_spec, Hc. reflexivity.
  - destruct (RedisCache.exists_ key (snd (RedisCache.delete key r))) eqn:E; [|reflexivity].
    apply exists_spec in E as [Hc [x Hx]]. rewrite delete_connected in Hc.
    rewrite delete_spec, Hc in Hx. unfold Redis.lookup in Hx. cbn in Hx.
    rewrite lookup_delete_eq in Hx. discriminate.
  - intros k' Hne. split; [apply get_of_lookup | apply exists_of_lookup];
      auto using delete_connected, lookup_delete_other.
Qed.

Lemma delete_is_idempotent_and_local_witness :
  RedisCache.get "news:detail:3" (snd (RedisCache.delete "news:detail:4" sample_store))
  = RedisCache.get "news:detail:3" sample_store.
Proof.
  apply (proj1 (proj2 (proj2 (delete_is_idempotent_and_local "news:detail:4" sample_store))
                  "news:detail:3" ltac:(discriminate))).
Defined.

(** ** The decorator, further *)

Section WrapperMore.
Context {U : Type}.
Variables (timeout : Z) (key_prefix : string) (func : pyfunc U).
Variables (args : list pyval) (kwargs : list (string * pyval)).

Local Notation "'the_key'" := (wrapper_key key_prefix func args kwargs).
Local Notation "'call'" := (wrapper timeout key_prefix func args kwargs).

(** X8: with the store unreachable a call of the decorated function is
    the call of the wrapped function: the same return value or exception,
    one invocation, the cache untouched. *)
Theorem wrapper_transparent_when_store_down (w : world U) :
  Redis.connected (cache w) = false ->
  call w = (fst (func_call func args kwargs (env w)),
            World (cache w) (snd (func_call func args kwargs (env w))) (S (calls w))).
Proof.
  intros Hc. unfold wrapper. rewrite (get_unreachable _ _ Hc). cbn [truthy].
  destruct (func_call func args kwargs (env w)) as [[v|e] env']; cbn [fst snd]; [|reflexivity].
  rewrite set_spec, Hc. reflexivity.
Qed.

(** X9: a call of the decorated function changes no entry but the one
    under its own key, and with a timeout that is not positive it changes
    no entry at all. *)
Theorem wrapper_writes_only_its_key (w : world U) :
  (forall k, k <> the_key ->
     Redis.data (cache (snd (call w))) !! k = Redis.data (cache w) !! k) /\
  Redis.connected (cache (snd (call w))) = Redis.connected (cache w) /\
  Redis.clock (cache (snd (call w))) = Redis.clock (cache w) /\
  ((timeout <= 0)%Z -> cache (snd (call w)) = cache w).
Proof.
  unfold wrapper. destruct (truthy (RedisCache.get the_key (cache w))); [now repeat split|].
  destruct (func_call func args kwargs (env w)) as [[v|e] env']; [|now repeat split].
  rewrite set_spec.
  destruct (Redis.connected (cache w) && (0 <? timeout)%Z && Json.serializable v) eqn:E;
    [|now repeat split].
  cbn [snd cache]. split; [|split; [|split]]; try reflexivity.
  - intros k Hk. unfold stored. cbn. now rewrite lookup_insert_ne by congruence.
  - intros Ht. apply andb_true_iff in E as [E _]. apply andb_true_iff in E as [_ E].
    apply Z.ltb_lt in E. lia.
Qed.
Lemma wrapper_get_other (w : world U) (k : string) :
  k <> the_key ->
  RedisCache.get k (cache (snd (call w))) = RedisCache.get k (cache w).
Proof.
  intros Hk. unfold wrapper. destruct (truthy (RedisCache.get the_key (cache w))); [reflexivity|].
  destruct (func_call func args kwargs (env w)) as [[v|e] env']; [|reflexivity].
  destruct (RedisCache.set the_key v timeout (cache w)) as [ok r'] eqn:E. cbn [snd cache].
  replace r' with (snd (RedisCache.set the_key v timeout (cache w))) by now rewrite E.
  apply get_of_lookup; auto using set_connected, lookup_set_other.
Qed.

End WrapperMore.

Lemma wrapper_writes_only_its_key_witness :
  cache (snd (wrapper 0 "news" (counting categories) [] [] fresh_world)) = cache fresh_world.
Proof.
  apply (proj2 (proj2 (proj2
           (wrapper_writes_only_its_key 0 "news" (counting categories) [] [] fresh_world)))).
  lia.
Defined.

Lemma wrapper_transparent_when_store_down_witness :
  wrapper 300 "news" (failing "database is down") [] [] (World (Redis.Server false 0 ∅) 0%nat 0%nat)
  = (Raise (AppError "database is down"), World (Redis.Server false 0 ∅) 1%nat 1%nat).
Proof.
  apply (wrapper_transparent_when_store_down 300 "news" (failing "database is down") [] []
           (World (Redis.Server false 0 ∅) 0%nat 0%nat)).
  reflexivity.
Defined.

(** ** The read routes *)

Section Routes.
Import NewsApi.

Lemma list_item_native (news : News) : json_native (list_item news) = true.
Proof. unfold list_item. destruct (publish_time news); reflexivity. Qed.

Lemma detail_item_native (news : News) : json_native (detail_item news) = true.
Proof. unfold detail_item. destruct (publish_time news); reflexivity. Qed.

Lemma list_page_data_native (category page page_size : Z) (rows : list News) :
  json_native (list_page_data category page page_size rows) = true.
Proof.
  unfold list_page_data.
  generalize (query_page category ((page - 1) * page_size) page_size rows). intros l.
  cbn [json_native forallb fst snd is_kstr andb map Json.key_text].
  assert (H : forallb json_native (map list_item l) = true).
  { induction l as [|x l IH]; [reflexivity|]. cbn [map forallb].
    now rewrite list_item_native, IH. }
  rewrite H. reflexivity.
Qed.

Lemma get_news_list_on_miss (category page page_size : Z) (a : app) :
  truthy (RedisCache.get (list_cache_key category page page_size) (redis_cache a)) = false ->
  get_news_list category page page_size a
  = (reply (list_page_data category page page_size (db a)) false,
     App (snd (RedisCache.set (list_cache_key category page page_size)
                 (list_page_data category page page_size (db a)) 300 (redis_cache a)))
         (db a)).
Proof.
  intros H. unfold get_news_list. rewrite H. rewrite length_map.
  fold (list_page_data category page page_size (db a)).
  now destruct (RedisCache.set _ _ _ _).
Qed.

Lemma get_news_list_on_hit (category page page_size : Z) (a : app) :
  truthy (RedisCache.get (list_cache_key category page page_size) (redis_cache a)) = true ->
  get_news_list category page page_size a
  = (reply (RedisCache.get (list_cache_key category page page_size) (redis_cache a)) true, a).
Proof. intros H. unfold get_news_list. now rewrite H. Qed.

(** X11: after a list read that missed, with the store reachable, the same
    read made less than 300 seconds later returns the page the first read
    computed, marked [from_cache: True], whatever the table holds by then
    (also when the page is empty), and changes nothing. *)
Theorem list_read_cached_for_five_minutes (category page page_size ms : Z) (a : app)
    (rows' : list News) :
  Redis.connected (redis_cache a) = true ->
  truthy (RedisCache.get (list_cache_key category page page_size) (redis_cache a)) = false ->
  (0 <= ms < 300000)%Z ->
  fst (get_news_list category page page_size a)
  = reply (list_page_data category page page_size (db a)) false /\
  get_news_list category page page_size
    (App (Redis.tick ms (redis_cache (snd (get_news_list category page page_size a)))) rows')
  = (reply (list_page_data category page page_size (db a)) true,
     App (Redis.tick ms (redis_cache (snd (get_news_list category page page_size a)))) rows').
Proof.
  intros Hc Hmiss Hms. rewrite (get_news_list_on_miss _ _ _ _ Hmiss). cbn [fst snd redis_cache].
  split; [reflexivity|].
  destruct (get_after_set_native (list_cache_key category page page_size)
              (list_page_data category page page_size (db a)) 300 ms (redis_cache a)
              Hc (list_page_data_native _ _ _ _) ltac:(lia) ltac:(lia)) as [_ Hget].
  rewrite get_news_list_on_hit; cbn [redis_cache]; rewrite Hget; reflexivity.
Qed.

Lemma list_read_cached_for_five_minutes_witness :
  get_news_list 1 1 10
    (App (Redis.tick 1000 (redis_cache (snd (get_news_list 1 1 10 sample_app)))) [])
  = (reply (list_page_data 1 1 10 (db sample_app)) true,
     App (Redis.tick 1000 (redis_cache (snd (get_news_list 1 1 10 sample_app)))) []).
Proof.
  apply (list_read_cached_for_five_minutes 1 1 10 1000 sample_app []);
    [reflexivity | reflexivity | lia].
Defined.

(** X12: with the store unreachable the list route returns the page read
    from the table, marked [from_cache: False], and changes nothing. *)
Theorem list_read_when_store_down (category page page_size : Z) (a : app) :
  Redis.connected (redis_cache a) = false ->
  get_news_list category page page_size a
  = (reply (list_page_data category page page_size (db a)) false, a).
Proof.
  intros Hc. rewrite get_news_list_on_miss by (now rewrite get_unreachable).
  rewrite set_spec, Hc. cbn. now destruct a.
Qed.

Lemma list_read_when_store_down_witness :
  get_news_list 1 1 10 (App (Redis.Server false 0 ∅) [sample_row])
  = (reply (list_page_data 1 1 10 [sample_row]) false, App (Redis.Server false 0 ∅) [sample_row]).
Proof.
  apply (list_read_when_store_down 1 1 10 (App (Redis.Server false 0 ∅) [sample_row])).
  reflexivity.
Defined.

(** X13: more than 300 seconds after the list read that filled the cache,
    the same read returns the page of the table as it is then, marked
    [from_cache: False]. *)
Theorem list_read_refreshes_after_expiry (category page page_size ms : Z) (a : app)
    (rows' : list News) :
  Redis.connected (redis_cache a) = true ->
  truthy (RedisCache.get (list_cache_key category page page_size) (redis_cache a)) = false ->
  (300000 < ms)%Z ->
  fst (get_news_list category page page_size
         (App (Redis.tick ms (redis_cache (snd (get_news_list category page page_size a)))) rows'))
  = reply (list_page_data category page page_size rows') false.
Proof.
  intros Hc Hmiss Hms. rewrite (get_news_list_on_miss _ _ _ _ Hmiss). cbn [fst snd redis_cache].
  rewrite set_spec, Hc, (native_serializable _ (list_page_data_native _ _ _ _)).
  cbn [andb snd Z.ltb Z.compare].
  rewrite get_news_list_on_miss; [reflexivity|]. cbn [redis_cache].
  rewrite get_absent; [reflexivity|]. apply lookup_stored_expired. lia.
Qed.

Lemma list_read_refreshes_after_expiry_witness :
  fst (get_news_list 1 1 10
         (App (Redis.tick 300001 (redis_cache (snd (get_news_list 1 1 10 sample_app)))) []))
  = reply (list_page_data 1 1 10 []) false.
Proof.
  apply (list_read_refreshes_after_expiry 1 1 10 300001 sample_app []);
    [reflexivity | reflexivity | lia].
Defined.

(** X14: for a page number from 1 and a page size from 0, the data of a
    list read that missed is a page of rows of the category asked for, its
    [total] is the number of rows on that page, at most the page size, and
    the page is empty when the offset reaches past the rows of the
    category. *)
Theorem list_total_is_page_length (category page page_size : Z) (rows : list News) :
  (1 <= page)%Z -> (0 <= page_size)%Z ->
  exists items : list News,
    list_page_data category page page_size rows
    = PDict [(KStr "list", PList (map list_item items));
             (KStr "total", PInt (Z.of_nat (List.length items)))] /\
    (Z.of_nat (List.length items) <= page_size)%Z /\
    (forall news, In news items -> In news rows /\ category_id news = category) /\
    ((page - 1) * page_size
       >= Z.of_nat (List.length (List.filter (fun n => (category_id n =? category)%Z) rows))
     -> items = [])%Z.
Proof.
  intros Hp Hs. exists (query_page category ((page - 1) * page_size) page_size rows).
  split; [reflexivity|]. unfold query_page. split; [|split].
  - rewrite length_firstn. lia.
  - intros news Hin.
    assert (Hin' : In news (List.filter (fun n => (category_id n =? category)%Z) rows)).
    { rewrite <- (firstn_skipn (Z.to_nat ((page - 1) * page_size))). apply in_or_app. right.
      rewrite <- (firstn_skipn (Z.to_nat page_size)
                    (skipn (Z.to_nat ((page - 1) * page_size)) _)).
      apply in_or_app. left. exact Hin. }
    apply filter_In in Hin' as [H1 H2]. split; [exact H1 | now apply Z.eqb_eq].
  - intros Hoff. rewrite skipn_all2 by lia. now rewrite firstn_nil.
Qed.

Lemma list_total_is_page_length_witness :
  exists items : list News,
    list_page_data 1 2 10 [sample_row]
    = PDict [(KStr "list", PList (map list_item items));
             (KStr "total", PInt (Z.of_nat (List.length items)))] /\
    (Z.of_nat (List.length items) <= 10)%Z /\
    (forall news, In news items -> In news [sample_row] /\ category_id news = 1%Z) /\
    ((2 - 1) * 10
       >= Z.of_nat (List.length (List.filter (fun n => (category_id n =? 1)%Z) [sample_row]))
     -> items = [])%Z.
Proof. apply (list_total_is_page_length 1 2 10 [sample_row]); lia. Defined.

(** *** The detail route *)

Lemma get_news_detail_on_hit (id0 : Z) (a : app) :
  truthy (RedisCache.get (detail_cache_key id0) (redis_cache a)) = true ->
  get_news_detail id0 a = (reply (RedisCache.get (detail_cache_key id0) (redis_cache a)) true, a).
Proof. intros H. unfold get_news_detail. now rewrite H. Qed.

Lemma get_news_detail_on_miss_found (id0 : Z) (a : app) (news : News) :
  truthy (RedisCache.get (detail_cache_key id0) (redis_cache a)) = false ->
  List.find (fun n => (id n =? id0)%Z) (db a) = Some news ->
  get_news_detail id0 a
  = (reply (detail_item news) false,
     App (snd (RedisCache.set (detail_cache_key id0) (detail_item news) 3600 (redis_cache a)))
         (db a)).
Proof.
  intros H Hf. unfold get_news_detail. rewrite H, Hf.
  now destruct (RedisCache.set _ _ _ _).
Qed.

Lemma get_news_detail_on_miss_absent (id0 : Z) (a : app) :
  truthy (RedisCache.get (detail_cache_key id0) (redis_cache a)) = false ->
  List.find (fun n => (id n =? id0)%Z) (db a) = None ->
  get_news_detail id0 a = (not_found, a).
Proof. intros H Hf. unfold get_news_detail. now rewrite H, Hf. Qed.

(** X15: after a detail read that missed and found the row, with the store
    reachable, the same read made less than 3600 seconds later returns that
    row, marked [from_cache: True], whatever the table holds by then. *)
Theorem detail_read_cached_for_an_hour (id0 ms : Z) (a : app) (news : News)
    (rows' : list News) :
  Redis.connected (redis_cache a) = true ->
  truthy (RedisCache.get (detail_cache_key id0) (redis_cache a)) = false ->
  List.find (fun n => (id n =? id0)%Z) (db a) = Some news ->
  (0 <= ms < 3600000)%Z ->
  fst (get_news_detail id0 a) = reply (detail_item news) false /\
  get_news_detail id0 (App (Redis.tick ms (redis_cache (snd (get_news_detail id0 a)))) rows')
  = (reply (detail_item news) true,
     App (Redis.tick ms (redis_cache (snd (get_news_detail id0 a)))) rows').
Proof.
  intros Hc Hmiss Hf Hms. rewrite (get_news_detail_on_miss_found _ _ _ Hmiss Hf).
  cbn [fst snd redis_cache]. split; [reflexivity|].
  destruct (get_after_set_native (detail_cache_key id0) (detail_item news) 3600 ms
              (redis_cache a) Hc (detail_item_native _) ltac:(lia) ltac:(lia)) as [_ Hget].
  rewrite get_news_detail_on_hit; cbn [redis_cache]; rewrite Hget; reflexivity.
Qed.

Lemma detail_read_cached_for_an_hour_witness :
  get_news_detail 1 (App (Redis.tick 5000 (redis_cache (snd (get_news_detail 1 sample_app)))) [])
  = (reply (detail_item sample_row) true,
     App (Redis.tick 5000 (redis_cache (snd (get_news_detail 1 sample_app)))) []).
Proof.
  apply (detail_read_cached_for_an_hour 1 5000 sample_app sample_row []);
    [reflexivity | reflexivity | reflexivity | lia].
Defined.

(** X16: a detail read of an id the table does not have answers 404 and
    stores nothing: once a row with the id exists, the next read returns
    it. *)
Theorem missing_detail_is_not_cached (id0 : Z) (a : app) :
  truthy (RedisCache.get (detail_cache_key id0) (redis_cache a)) = false ->
  List.find (fun n => (id n =? id0)%Z) (db a) = None ->
  get_news_detail id0 a = (not_found, a) /\
  (forall news rows', id news = id0 ->
     fst (get_news_detail id0 (App (redis_cache (snd (get_news_detail id0 a))) (news :: rows')))
     = reply (detail_item news) false).
Proof.
  intros Hmiss Hf. rewrite (get_news_detail_on_miss_absent _ _ Hmiss Hf). split; [reflexivity|].
  intros news rows' Hid. cbn [snd redis_cache].
  rewrite (get_news_detail_on_miss_found id0 _ news); [reflexivity | exact Hmiss |].
  cbn [db List.find]. now rewrite Hid, Z.eqb_refl.
Qed.

Lemma missing_detail_is_not_cached_witness :
  get_news_detail 9 sample_app = (not_found, sample_app) /\
  (forall news rows', id news = 9%Z ->
     fst (get_news_detail 9 (App (redis_cache (snd (get_news_detail 9 sample_app))) (news :: rows')))
     = reply (detail_item news) false).
Proof. apply (missing_detail_is_not_cached 9 sample_app); reflexivity. Defined.
End Routes.

(** ** The mutation handlers, further *)

Section Mutations.
Import NewsApi.

Lemma find_replace_first (id0 : Z) (news news' : News) (rows : list News) :
  List.find (fun n => (id n =? id0)%Z) rows = Some news ->
  id news' = id0 ->
  List.find (fun n => (id n =? id0)%Z) (replace_first id0 news' rows) = Some news'.
Proof.
  intros Hf Hid. induction rows as [|x rows IH]; [discriminate|].
  cbn [List.find replace_first] in *. destruct (id x =? id0)%Z eqn:E.
  - cbn [List.find]. now rewrite Hid, Z.eqb_refl.
  - cbn [List.find]. rewrite E. now apply IH.
Qed.

Lemma find_remove_first (id0 : Z) (rows : list News) :
  NoDup (map id rows) ->
  List.find (fun n => (id n =? id0)%Z) (remove_first id0 rows) = None.
Proof.
  induction rows as [|x rows IH]; intros Hnd; [reflexivity|].
  cbn [map] in Hnd. apply NoDup_cons in Hnd as [Hx Hnd].
  cbn [remove_first]. destruct (id x =? id0)%Z eqn:E.
  - apply Z.eqb_eq in E. destruct (List.find _ rows) as [y|] eqn:Hf; [|reflexivity].
    apply find_some in Hf as [Hin Hy]. apply Z.eqb_eq in Hy. exfalso. apply Hx.
    rewrite E, <- Hy. apply list_elem_of_In. now apply in_map.
  - cbn [List.find]. rewrite E. now apply IH.
Qed.

Lemma update_news_detail_gone (id0 : Z) (news_data : NewsUpdate) (a : app) (news : News) :
  List.find (fun n => (id n =? id0)%Z) (db a) = Some news ->
  key_gone (detail_cache_key id0) (redis_cache (snd (update_news id0 news_data a))).
Proof.
  intros Hf. unfold update_news. rewrite Hf. cbn [snd redis_cache].
  destruct (negb _); repeat apply clear_list_pages_keeps_gone; apply delete_key_gone.
Qed.

Lemma delete_news_detail_gone (id0 : Z) (a : app) (news : News) :
  List.find (fun n => (id n =? id0)%Z) (db a) = Some news ->
  key_gone (detail_cache_key id0) (redis_cache (snd (delete_news id0 a))).
Proof.
  intros Hf. unfold delete_news. rewrite Hf. cbn [snd redis_cache].
  apply clear_list_pages_keeps_gone, delete_key_gone.
Qed.

(** X17: after [update_news] has found and changed a row, the detail read
    of its id is not served from the cache and returns the row as
    changed. *)
Theorem update_then_detail_reads_new_row (id0 : Z) (news_data : NewsUpdate) (a : app)
    (news : News) :
  List.find (fun n => (id n =? id0)%Z) (db a) = Some news ->
  fst (update_news id0 news_data a)
  = PDict [(KStr "code", PInt 200); (KStr "message", PStr "更新成功")] /\
  fst (get_news_detail id0 (snd (update_news id0 news_data a)))
  = reply (detail_item (apply_update news_data news)) false.
Proof.
  intros Hf. split; [unfold update_news; now rewrite Hf|].
  pose proof (key_gone_get _ _ (update_news_detail_gone id0 news_data a news Hf)) as Hg.
  rewrite (get_news_detail_on_miss_found id0 _ (apply_update news_data news));
    [reflexivity | now rewrite Hg |].
  unfold update_news. rewrite Hf. cbn [snd db].
  apply find_replace_first with (news := news); [exact Hf|].
  apply find_some in Hf as [_ Hid]. now apply Z.eqb_eq in Hid.
Qed.

Lemma update_then_detail_reads_new_row_witness :
  fst (update_news 1 (MkNewsUpdate (Some "new title") None (Some 2%Z) None None)
         (snd (get_news_detail 1 sample_app)))
  = PDict [(KStr "code", PInt 200); (KStr "message", PStr "更新成功")] /\
  fst (get_news_detail 1
         (snd (update_news 1 (MkNewsUpdate (Some "new title") None (Some 2%Z) None None)
                 (snd (get_news_detail 1 sample_app)))))
  = reply (detail_item
             (apply_update (MkNewsUpdate (Some "new title") None (Some 2%Z) None None) sample_row))
          false.
Proof.
  apply (update_then_detail_reads_new_row 1
           (MkNewsUpdate (Some "new title") None (Some 2%Z) None None)
           (snd (get_news_detail 1 sample_app)) sample_row).
  reflexivity.
Defined.

(** X18: when ids are unique, after [delete_news] has found a row, the
    table has one row less and the detail read of the id answers 404, also
    when the row was cached. *)
Theorem delete_then_detail_is_404 (id0 : Z) (a : app) (news : News) :
  List.find (fun n => (id n =? id0)%Z) (db a) = Some news ->
  NoDup (map id (db a)) ->
  fst (delete_news id0 a)
  = PDict [(KStr "code", PInt 200); (KStr "message", PStr "删除成功")] /\
  List.length (db (snd (delete_news id0 a))) = pred (List.length (db a)) /\
  fst (get_news_detail id0 (snd (delete_news id0 a))) = not_found.
Proof.
  intros Hf Hnd. split; [unfold delete_news; now rewrite Hf|]. split.
  - unfold delete_news. rewrite Hf. cbn [snd db]. clear Hnd.
    induction (db a) as [|x rows IH]; [discriminate|].
    cbn [List.find remove_first] in *. destruct (id x =? id0)%Z; [reflexivity|].
    cbn [List.length]. rewrite (IH Hf). destruct rows; [discriminate | reflexivity].
  - pose proof (key_gone_get _ _ (delete_news_detail_gone id0 a news Hf)) as Hg.
    rewrite get_news_detail_on_miss_absent; [reflexivity | now rewrite Hg |].
    unfold delete_news. rewrite Hf. cbn [snd db]. now apply find_remove_first.
Qed.

Lemma delete_then_detail_is_404_witness :
  fst (delete_news 1 (snd (get_news_detail 1 sample_app)))
  = PDict [(KStr "code", PInt 200); (KStr "message", PStr "删除成功")] /\
  List.length (db (snd (delete_news 1 (snd (get_news_detail 1 sample_app)))))
  = pred (List.length (db (snd (get_news_detail 1 sample_app)))) /\
  fst (get_news_detail 1 (snd (delete_news 1 (snd (get_news_detail 1 sample_app))))) = not_found.
Proof.
  apply (delete_then_detail_is_404 1 (snd (get_news_detail 1 sample_app)) sample_row);
    [reflexivity | cbn; apply NoDup_singleton].
Defined.

End Mutations.

(** ** Cache keys *)

Lemma scan_digits_uint_sep (d : uint) (rest : string) :
  scan_digits rest = (Nil, rest) ->
  scan_digits (NilEmpty.string_of_uint d +:+ rest) = (d, rest).
Proof.
  intros H. induction d; cbn [NilEmpty.string_of_uint]; [exact H | ..];
    simpl; rewrite IHd; reflexivity.
Qed.

Lemma scan_int_str_int_sep (z : Z) (rest : string) :
  scan_digits rest = (Nil, rest) -> float_tail rest = false ->
  scan_int (str_int z +:+ rest) = Some (z, rest).
Proof.
  intros Hd Hf. destruct z as [|p|p]; cbn [str_int].
  - unfold scan_int. simpl. now rewrite Hf.
  - pose proof (to_uint_head p) as Hh. pose proof (of_uint_to_uint p) as Hv.
    pose proof (scan_digits_uint_sep (Pos.to_uint p) rest Hd) as Hs.
    destruct (Pos.to_uint p) as [|u|u|u|u|u|u|u|u|u|u]; try contradiction;
      cbn [NilEmpty.string_of_uint] in *; unfold scan_int; simpl in *;
      rewrite Hs, Hf, Hv; reflexivity.
  - pose proof (to_uint_head p) as Hh. pose proof (of_uint_to_uint p) as Hv.
    pose proof (scan_digits_uint_sep (Pos.to_uint p) rest Hd) as Hs.
    destruct (Pos.to_uint p) as [|u|u|u|u|u|u|u|u|u|u]; try contradiction;
      cbn [NilEmpty.string_of_uint] in *; unfold scan_int; simpl in *;
      rewrite Hs, Hf, Hv; reflexivity.
Qed.

(** Two ints written before a colon are the same int, followed by the same
    text. *)
Lemma str_int_colon_inj (z z' : Z) (t t' : string) :
  str_int z +:+ String ":" t = str_int z' +:+ String ":" t' -> z = z' /\ t = t'.
Proof.
  intros H.
  assert (H1 : scan_int (str_int z +:+ String ":" t) = Some (z, String ":" t)).
  { apply scan_int_str_int_sep; [reflexivity | now destruct t]. }
  assert (H2 : scan_int (str_int z' +:+ String ":" t') = Some (z', String ":" t')).
  { apply scan_int_str_int_sep; [reflexivity | now destruct t']. }
  rewrite H, H2 in H1. now inversion H1.
Qed.

Lemma str_int_inj (z z' : Z) : str_int z = str_int z' -> z = z'.
Proof.
  intros H.
  assert (H1 : scan_int (str_int z +:+ "") = Some (z, "")) by now apply scan_int_str_int_sep.
  assert (H2 : scan_int (str_int z' +:+ "") = Some (z', "")) by now apply scan_int_str_int_sep.
  rewrite !append_empty_r in *. rewrite H, H2 in H1. now inversion H1.
Qed.

Section Keys.
Import NewsApi.

Lemma list_cache_key_inj (c p s c' p' s' : Z) :
  list_cache_key c p s = list_cache_key c' p' s' -> c = c' /\ p = p' /\ s = s'.
Proof.
  unfold list_cache_key. intros H. apply String.app_inj in H.
  change (":page_" +:+ ?x) with (String ":" ("page_" +:+ x)) in H.
  apply str_int_colon_inj in H as [-> H]. apply String.app_inj in H.
  change (":size_" +:+ ?x) with (String ":" ("size_" +:+ x)) in H.
  apply str_int_colon_inj in H as [-> H]. apply String.app_inj in H.
  apply str_int_inj in H. auto.
Qed.

(** X19: two list reads share a cache key only when category, page and
    page size are the same; two detail reads only when the id is the same;
    a list key is never a detail key. *)
Theorem cache_keys_do_not_collide (c p s c' p' s' i i' : Z) :
  (list_cache_key c p s = list_cache_key c' p' s' <-> c = c' /\ p = p' /\ s = s') /\
  (detail_cache_key i = detail_cache_key i' <-> i = i') /\
  list_cache_key c p s <> detail_cache_key i.
Proof.
  split; [|split].
  - split; [apply list_cache_key_inj | now intros (-> & -> & ->)].
  - split; [|now intros ->]. unfold detail_cache_key. intros H.
    apply String.app_inj in H. now apply str_int_inj.
  - unfold list_cache_key, detail_cache_key. discriminate.
Qed.





End Keys.

(** ** The administrative route, further *)






(** X22: with the store reachable, [clear_cache("*")] answers "all cleared"
    and leaves no entry: every [get] returns None and every [exists]
    False. *)
Theorem clear_cache_star_empties_store (r : Redis.server) :
  Redis.connected r = true ->
  fst (clear_cache "*" r) = cleared_all /\
  Redis.data (snd (clear_cache "*" r)) = ∅ /\
  (forall k, RedisCache.get k (snd (clear_cache "*" r)) = PNone /\
             RedisCache.exists_ k (snd (clear_cache "*" r)) = false).
Proof.
  intros Hc. unfold clear_cache, Redis.FLUSHDB. cbn. rewrite Hc. cbn.
  split; [reflexivity|]. split; [reflexivity|]. intros k. split.
  - apply get_absent. unfold Redis.lookup. cbn. now rewrite lookup_empty.
  - unfold RedisCache.exists_, RedisCache.exists_body, Redis.EXISTS, Redis.lookup. cbn.
    now rewrite lookup_empty.
Qed.

Lemma clear_cache_star_empties_store_witness :
  fst (clear_cache "*" sample_store) = cleared_all /\
  Redis.data (snd (clear_cache "*" sample_store)) = ∅ /\
  (forall k, RedisCache.get k (snd (clear_cache "*" sample_store)) = PNone /\
             RedisCache.exists_ k (snd (clear_cache "*" sample_store)) = false).
Proof. apply (clear_cache_star_empties_store sample_store). reflexivity. Defined.



(** ** Prefix patterns *)









Section CategoryPattern.
Import NewsApi.






End CategoryPattern.

(** ** The categories route *)

Lemma append_inj_r (s s' t : string) : s +:+ t = s' +:+ t -> s = s'.
Proof.
  revert s'. induction s as [|c s IH]; intros [|c' s'] H.
  - reflexivity.
  - exfalso. apply (f_equal String.length) in H.
    change (String c' s' +:+ t) with (String c' (s' +:+ t)) in H.
    cbn [String.append String.length] in H. rewrite length_append in H. lia.
  - exfalso. apply (f_equal String.length) in H.
    change (String c s +:+ t) with (String c (s +:+ t)) in H.
    cbn [String.append String.length] in H. rewrite length_append in H. lia.
  - change (String c s +:+ t) with (String c (s +:+ t)) in H.
    change (String c' s' +:+ t) with (String c' (s' +:+ t)) in H.
    injection H as -> H. f_equal. now apply IH.
Qed.

Lemma categories_key (session_repr : string) :
  wrapper_key "news" get_categories_query [] (session_kwargs session_repr)
  = "news:get_categories:():{'db': " +:+ session_repr +:+ "}".
Proof. reflexivity. Qed.

Lemma categories_key_inj (s s' : string) :
  wrapper_key "news" get_categories_query [] (session_kwargs s)
  = wrapper_key "news" get_categories_query [] (session_kwargs s') -> s = s'.
Proof.
  rewrite !categories_key. intros H. apply String.app_inj in H. now apply append_inj_r in H.
Qed.

Lemma categories_reply_native (cats : list Category) :
  json_native (categories_reply cats) = true.
Proof.
  unfold categories_reply. cbn [json_native forallb fst snd is_kstr andb map Json.key_text].
  assert (H : forallb json_native (map category_item cats) = true).
  { induction cats as [|x l IH]; [reflexivity|]. cbn [map forallb]. now rewrite IH. }
  rewrite H. reflexivity.
Qed.

(** X26: after a call of [get_categories] that missed, with the store
    reachable, a call with the same session argument less than 3600 seconds
    later returns the reply the first call computed, without querying the
    table, whatever the table holds by then and also when it was empty. *)
Theorem categories_cached_for_an_hour (session_repr : string) (ms : Z)
    (w : world (list Category)) (cats' : list Category) :
  Redis.connected (cache w) = true ->
  truthy (RedisCache.get
            (wrapper_key "news" get_categories_query [] (session_kwargs session_repr))
            (cache w)) = false ->
  (0 <= ms < 3600000)%Z ->
  fst (func_call get_categories [] (session_kwargs session_repr) w)
  = Ok (categories_reply (env w)) /\
  func_call get_categories [] (session_kwargs session_repr)
    (World (Redis.tick ms
              (cache (snd (func_call get_categories [] (session_kwargs session_repr) w))))
       cats' (S (calls w)))
  = (Ok (categories_reply (env w)),
     World (Redis.tick ms
              (cache (snd (func_call get_categories [] (session_kwargs session_repr) w))))
       cats' (S (calls w))).
Proof.
  intros Hc Hmiss Hms. cbn [get_categories cache_result func_call].
  rewrite (wrapper_miss_ok 3600 "news" get_categories_query [] (session_kwargs session_repr)
             w (categories_reply (env w)) (env w) Hmiss eq_refl).
  cbn [fst snd cache]. split; [reflexivity|].
  destruct (get_after_set_native
              (wrapper_key "news" get_categories_query [] (session_kwargs session_repr))
              (categories_reply (env w)) 3600 ms (cache w) Hc (categories_reply_native _)
              ltac:(lia) ltac:(lia)) as [_ Hget].
  rewrite wrapper_hit; cbn [cache]; rewrite Hget; reflexivity.
Qed.

Lemma categories_cached_for_an_hour_witness :
  func_call get_categories [] (session_kwargs "<Session 1>")
    (World (Redis.tick 1000
              (cache (snd (func_call get_categories [] (session_kwargs "<Session 1>")
                             (World (Redis.Server true 0 ∅) [] 0%nat))))) [MkCategory 1 "sports"] 1%nat)
  = (Ok (categories_reply []),
     World (Redis.tick 1000
              (cache (snd (func_call get_categories [] (session_kwargs "<Session 1>")
                             (World (Redis.Server true 0 ∅) [] 0%nat))))) [MkCategory 1 "sports"] 1%nat).
Proof.
  apply (categories_cached_for_an_hour "<Session 1>" 1000 (World (Redis.Server true 0 ∅) [] 0%nat)
           [MkCategory 1 "sports"]); [reflexivity | reflexivity | lia].
Defined.

(** X27: the cache key of [get_categories] holds the [repr] of its [db]
    argument: two sessions that print differently give different keys, and
    a call with the second session is not served by what the call with the
    first one stored: it queries the table. *)
Theorem categories_key_depends_on_session (s s' : string) (w : world (list Category)) :
  s <> s' ->
  truthy (RedisCache.get (wrapper_key "news" get_categories_query [] (session_kwargs s'))
            (cache w)) = false ->
  wrapper_key "news" get_categories_query [] (session_kwargs s)
  <> wrapper_key "news" get_categories_query [] (session_kwargs s') /\
  calls (snd (func_call get_categories [] (session_kwargs s')
                (snd (func_call get_categories [] (session_kwargs s) w))))
  = S (calls (snd (func_call get_categories [] (session_kwargs s) w))).
Proof.
  intros Hne Hmiss.
  assert (Hk : wrapper_key "news" get_categories_query [] (session_kwargs s)
               <> wrapper_key "news" get_categories_query [] (session_kwargs s')).
  { intros H. now apply categories_key_inj in H. }
  split; [exact Hk|]. cbn [get_categories cache_result func_call].
  apply wrapper_miss_calls. rewrite wrapper_get_other by congruence. exact Hmiss.
Qed.

Lemma categories_key_depends_on_session_witness :
  wrapper_key "news" get_categories_query [] (session_kwargs "<Session at 0x1>")
  <> wrapper_key "news" get_categories_query [] (session_kwargs "<Session at 0x2>") /\
  calls (snd (func_call get_categories [] (session_kwargs "<Session at 0x2>")
                (snd (func_call get_categories [] (session_kwargs "<Session at 0x1>")
                        (World (Redis.Server true 0 ∅) [] 0%nat)))))
  = S (calls (snd (func_call get_categories [] (session_kwargs "<Session at 0x1>")
                     (World (Redis.Server true 0 ∅) [] 0%nat)))).
Proof.
  apply (categories_key_depends_on_session "<Session at 0x1>" "<Session at 0x2>"
           (World (Redis.Server true 0 ∅) [] 0%nat)); [discriminate | reflexivity].
Defined.

(** ** The pattern of the docstring *)

Section NewsPattern.
Import NewsApi.



End NewsPattern.

(** ** Expiry under the decorator *)


Section WrapperExpiry.
Context {U : Type}.
Variables (timeout : Z) (key_prefix : string) (func : pyfunc U).
Variables (args : list pyval) (kwargs : list (string * pyval)).

Local Notation "'the_key'" := (wrapper_key key_prefix func args kwargs).
Local Notation "'call'" := (wrapper timeout key_prefix func args kwargs).


End WrapperExpiry.

